(** * The masking and batching pipeline of [utils/masking.py]

    A shallow embedding of the vocabulary, the masking engine
    ([get_masked_sample], [replace_masked_tokens]), the batch collator
    ([pad_sequence], [generate_batch]), the cache path of the [cache]
    decorator and the [accuracy] metric, followed by the properties the
    specification states about them.

    Python values are embedded as follows: an [int] is a [Z] (a list index
    or a length is a [nat]), a [float] is a binary64 [spec_float] with the
    operations of [SpecFloat], a [str] is a [string], a [dict] is a [gmap],
    a [list] or a one-dimensional tensor is a [list], [None] is the [None] of
    an [option], and a raised exception is the [Raise] of [result]. *)

From Stdlib Require Import ZArith NArith Lia Ascii String DecimalString DecimalZ.
From Stdlib Require Import SpecFloat.
From stdpp Require Import base option list gmap strings.

Open Scope Z_scope.

(** ** Exceptions *)

Inductive pyexn : Type :=
| ValueError | OverflowError | IndexError | ZeroDivisionError
| RuntimeError | TypeError.

Inductive result (A : Type) : Type :=
| Ok (a : A)
| Raise (e : pyexn).
Arguments Ok {A} a.
Arguments Raise {A} e.

#[global] Instance result_ret : MRet result := fun A a => Ok a.
#[global] Instance result_bind : MBind result := fun A B f m =>
  match m with
  | Ok a => f a
  | Raise e => Raise e
  end.

(** ** Floats

    Python's [float] is IEEE 754 binary64. *)

Definition prec : Z := 53.
Definition emax : Z := 1024.

Definition float_mul : spec_float -> spec_float -> spec_float := SFmul prec emax.
Definition float_div : spec_float -> spec_float -> spec_float := SFdiv prec emax.
Definition float_lt : spec_float -> spec_float -> bool := SFltb.

(** [float(n)] for an [int]: the nearest double, [OverflowError] when [n]
    is too large for one. *)
Definition float_of_int (n : Z) : result spec_float :=
  match binary_normalize prec emax n 0 false with
  | S754_infinity _ => Raise OverflowError
  | x => Ok x
  end.

(** The integer nearest to [m * 2^e] for [0 <= m], ties going to the even
    one. *)
Definition round_half_even (m e : Z) : Z :=
  if 0 <=? e then m * 2 ^ e
  else
    let d := 2 ^ (- e) in
    let q := m / d in
    let r := m mod d in
    match 2 * r ?= d with
    | Lt => q
    | Gt => q + 1
    | Eq => if Z.even q then q else q + 1
    end.

(** [round(x)] of one float argument. *)
Definition py_round (x : spec_float) : result Z :=
  match x with
  | S754_nan => Raise ValueError
  | S754_infinity _ => Raise OverflowError
  | S754_zero _ => Ok 0
  | S754_finite s m e => Ok (cond_Zopp s (round_half_even (Zpos m) e))
  end.

(** [n * x] for an [int] [n] and a [float] [x]. *)
Definition int_mul_float (n : Z) (x : spec_float) : result spec_float :=
  nf ← float_of_int n; mret (float_mul nf x).

(** The doubles written [0.15], [0.8] and [0.5] in the source. *)
Definition f0_15 : spec_float := S754_finite false 5404319552844595 (-55).
Definition f0_8 : spec_float := S754_finite false 7205759403792794 (-53).
Definition f0_5 : spec_float := S754_finite false 4503599627370496 (-53).

(** ** The module-level random generator

    [random.random], [random.randint] and [random.shuffle] draw from one
    process-wide generator.  The generator is a tape of raw values and a
    cursor; each primitive draw reads one raw value and reduces it to its
    range, so every outcome of a draw is the outcome on some tape. *)

Record RandomState : Type := { tape : nat -> N; cursor : nat }.

Definition M (A : Type) : Type := RandomState -> result (A * RandomState).

#[global] Instance M_ret : MRet M := fun A a st => Ok (a, st).
#[global] Instance M_bind : MBind M := fun A B f m st =>
  match m st with
  | Ok (a, st') => f a st'
  | Raise e => Raise e
  end.

Definition raise {A} (e : pyexn) : M A := fun _ => Raise e.
Definition lift {A} (r : result A) : M A := fun st =>
  match r with
  | Ok a => Ok (a, st)
  | Raise e => Raise e
  end.

Definition next_raw : M N := fun st =>
  Ok (tape st (cursor st), {| tape := tape st; cursor := S (cursor st) |}).

(** [random.random()]: a multiple of [2^-53] in [[0, 1)]. *)
Definition random_random : M spec_float :=
  r ← next_raw;
  mret (binary_normalize prec emax (Z.of_N (r mod 2 ^ 53)) (-53) false).

(** A value in [[0, n)], for [0 < n]. *)
Definition randbelow (n : Z) : M Z :=
  r ← next_raw; mret (Z.of_N r mod n).

(** [random.randint(a, b)]: a value in [[a, b]], [ValueError] on an empty
    range. *)
Definition random_randint (a b : Z) : M Z :=
  if b <? a then raise ValueError
  else r ← randbelow (b - a + 1); mret (a + r).

(** [x[i], x[j] = x[j], x[i]] *)
Definition swap {A} (x : list A) (i j : nat) : list A :=
  match x !! i, x !! j with
  | Some xi, Some xj => <[j := xi]> (<[i := xj]> x)
  | _, _ => x
  end.

(** [random.shuffle(x)]: for [i] from [len(x) - 1] down to [1], swap
    [x[i]] with [x[j]] for a [j] drawn from [[0, i]]. *)
Fixpoint shuffle_from {A} (i : nat) (x : list A) : M (list A) :=
  match i with
  | O => mret x
  | S i' =>
      j ← randbelow (Z.of_nat i + 1);
      shuffle_from i' (swap x i (Z.to_nat j))
  end.

Definition random_shuffle {A} (x : list A) : M (list A) :=
  shuffle_from (length x - 1)%nat x.

(** ** Vocab *)

Record Vocab : Type := { stoi : gmap string nat; itos : list string }.

Definition UNK : string := "[UNK]".

Definition newline : ascii := Ascii.ascii_of_nat 10.

Fixpoint lstrip_newline (s : string) : string :=
  match s with
  | String c s' => if Ascii.eqb c newline then lstrip_newline s' else s
  | EmptyString => EmptyString
  end.

Fixpoint rstrip_newline (s : string) : string :=
  match s with
  | String c s' =>
      match rstrip_newline s' with
      | EmptyString => if Ascii.eqb c newline then EmptyString else String c EmptyString
      | r => String c r
      end
  | EmptyString => EmptyString
  end.

(** [word.strip('\n')] *)
Definition strip_newline (s : string) : string :=
  rstrip_newline (lstrip_newline s).

(** The body of the loop of [Vocab.__init__] at line index [i]. *)
Definition Vocab_add (i : nat) (word : string) (v : Vocab) : Vocab :=
  let w := strip_newline word in
  {| stoi := <[w := i]> (stoi v); itos := itos v ++ [w] |}.

Fixpoint Vocab_load (i : nat) (lines : list string) (v : Vocab) : Vocab :=
  match lines with
  | [] => v
  | word :: rest => Vocab_load (S i) rest (Vocab_add i word v)
  end.

(** [Vocab(vocab_path)], on the lines of the file at [vocab_path]. *)
Definition Vocab_init (lines : list string) : Vocab :=
  Vocab_load 0 lines {| stoi := ∅; itos := [] |}.

Definition build_vocab (lines : list string) : Vocab := Vocab_init lines.

(** [d.get(key, default)] *)
Definition dict_get {V} (d : gmap string V) (key : string) (default : option V)
  : option V :=
  match d !! key with
  | Some v => Some v
  | None => default
  end.

(** [Vocab.__getitem__]: the result is an ID or [None]. *)
Definition Vocab_getitem (v : Vocab) (token : string) : result (option nat) :=
  mret (dict_get (stoi v) token (dict_get (stoi v) UNK None)).

(** [Vocab.__len__] *)
Definition Vocab_len (v : Vocab) : nat := length (itos v).

(** ** LoadDNADataset *)

(** The [max_sen_len] argument: [None], an [int], or the string ['same']. *)
Inductive max_len_arg : Type :=
| MaxNone
| MaxInt (n : nat)
| MaxSame.

(** The attributes of a [LoadDNADataset] instance.  The engine works on
    integer token IDs, so the instances are those where the lookups of
    ['[SEP]'], ['[CLS]'] and ['[MASK]'] of [__init__] gave an ID. *)
Record LoadDNADataset : Type := {
  vocab : Vocab;
  PAD_IDX : Z;
  SEP_IDX : Z;
  CLS_IDX : Z;
  MASK_IDS : Z;
  max_sen_len : max_len_arg;
  max_position_embeddings : nat;
  random_state : Z;
  masked_rate : spec_float;
  masked_token_rate : spec_float;
  masked_token_unchanged_rate : spec_float;
  inital_site : nat;
  number_of_group : nat
}.

(** [LoadDNADataset.__init__] with [pad_index] and the defaults of the
    remaining arguments, when the three reserved lookups give IDs. *)
Definition LoadDNADataset_init (lines : list string) (pad_index : Z)
  : option LoadDNADataset :=
  let v := build_vocab lines in
  match Vocab_getitem v "[SEP]", Vocab_getitem v "[CLS]", Vocab_getitem v "[MASK]" with
  | Ok (Some sep), Ok (Some cls), Ok (Some mask) =>
      Some {| vocab := v; PAD_IDX := pad_index;
              SEP_IDX := Z.of_nat sep; CLS_IDX := Z.of_nat cls;
              MASK_IDS := Z.of_nat mask;
              max_sen_len := MaxNone; max_position_embeddings := 512;
              random_state := 2022;
              masked_rate := f0_15; masked_token_rate := f0_8;
              masked_token_unchanged_rate := f0_5;
              inital_site := 0; number_of_group := 1 |}
  | _, _, _ => None
  end.

(** [len(self.vocab.stoi)] *)
Definition vocab_size (d : LoadDNADataset) : Z := Z.of_nat (size (stoi (vocab d))).

Section MaskingEngine.
Variable d : LoadDNADataset.

(** The corruption of one committed position whose original token is
    [tok]: lines 223 to 230. *)
Definition corrupt_token (tok : Z) : M Z :=
  rand_t ← random_random;
  if float_lt rand_t (masked_token_rate d) then mret (MASK_IDS d)
  else
    r ← random_random;
    if float_lt (masked_token_unchanged_rate d) r
    then random_randint 0 (vocab_size d - 1)
    else mret tok.

(** The [for] loop of [replace_masked_tokens] over the remaining candidate
    positions, with the current [pred_positions] and
    [mlm_input_tokens_id]. *)
Fixpoint replace_loop (token_ids : list Z) (num_mlm_preds : Z)
    (candidates : list nat) (pred_positions : list nat)
    (mlm_input_tokens_id : list Z) : M (list nat * list Z) :=
  match candidates with
  | [] => mret (pred_positions, mlm_input_tokens_id)
  | mlm_pred_position :: rest =>
      if Z.of_nat (length pred_positions) >=? num_mlm_preds
      then mret (pred_positions, mlm_input_tokens_id)
      else
        match token_ids !! mlm_pred_position with
        | None => raise IndexError
        | Some tok =>
            masked_token_id ← corrupt_token tok;
            replace_loop token_ids num_mlm_preds rest
              (pred_positions ++ [mlm_pred_position])
              (<[mlm_pred_position := masked_token_id]> mlm_input_tokens_id)
        end
  end.

(** The list comprehension building [mlm_label]. *)
Definition make_labels (token_ids : list Z) (pred_positions : list nat) : list Z :=
  imap (fun idx tok => if decide (idx ∈ pred_positions) then tok else PAD_IDX d)
       token_ids.

(** [replace_masked_tokens], returning its local [pred_positions] along
    with the two results. *)
Definition replace_masked_tokens_trace (token_ids : list Z)
    (candidate_pred_positions : list nat) (num_mlm_preds : Z)
  : M (list nat * (list Z * list Z)) :=
  '(pred_positions, mlm_input_tokens_id) ←
     replace_loop token_ids num_mlm_preds candidate_pred_positions [] token_ids;
  mret (pred_positions, (mlm_input_tokens_id, make_labels token_ids pred_positions)).

Definition replace_masked_tokens (token_ids : list Z)
    (candidate_pred_positions : list nat) (num_mlm_preds : Z)
  : M (list Z * list Z) :=
  r ← replace_masked_tokens_trace token_ids candidate_pred_positions num_mlm_preds;
  mret (snd r).

(** The candidate positions of [get_masked_sample] before the shuffle:
    the indices, from [i] on, whose token is not in
    [[self.CLS_IDX, self.SEP_IDX]]. *)
Fixpoint candidates_from (i : nat) (token_ids : list Z) : list nat :=
  match token_ids with
  | [] => []
  | ids :: rest =>
      if bool_decide (ids ∈ [CLS_IDX d; SEP_IDX d])
      then candidates_from (S i) rest
      else i :: candidates_from (S i) rest
  end.

(** [max(1, round(len(token_ids) * self.masked_rate))] *)
Definition num_mlm_preds_of (len : nat) : result Z :=
  x ← int_mul_float (Z.of_nat len) (masked_rate d);
  n ← py_round x;
  mret (Z.max 1 n).

Definition get_masked_sample_trace (token_ids : list Z)
  : M (list nat * (list Z * list Z)) :=
  candidate_pred_positions ← random_shuffle (candidates_from 0 token_ids);
  num_mlm_preds ← lift (num_mlm_preds_of (length token_ids));
  replace_masked_tokens_trace token_ids candidate_pred_positions num_mlm_preds.

Definition get_masked_sample (token_ids : list Z) : M (list Z * list Z) :=
  candidate_pred_positions ← random_shuffle (candidates_from 0 token_ids);
  num_mlm_preds ← lift (num_mlm_preds_of (length token_ids));
  replace_masked_tokens token_ids candidate_pred_positions num_mlm_preds.

End MaskingEngine.

(** ** Tensors

    A two-dimensional tensor carries its shape, so that a tensor with an
    empty first axis still has a second one. *)

Record tensor2 (A : Type) : Type :=
  Tensor2 { dim0 : nat; dim1 : nat; rows : list (list A) }.
Arguments Tensor2 {A} dim0 dim1 rows.
Arguments dim0 {A} t.
Arguments dim1 {A} t.
Arguments rows {A} t.

(** [t[i][j]] *)
Definition tget {A} (t : tensor2 A) (i j : nat) : option A :=
  row ← rows t !! i; row !! j.

(** The first [n] columns of a list of rows. *)
Fixpoint columns {A} (n : nat) (xs : list (list A)) : list (list A) :=
  match n with
  | O => []
  | S n' => omap head xs :: columns n' (tail <$> xs)
  end.

(** [t.transpose(0, 1)] *)
Definition transpose01 {A} (t : tensor2 A) : tensor2 A :=
  Tensor2 (dim1 t) (dim0 t) (columns (dim1 t) (rows t)).

Definition tmap {A B} (f : A -> B) (t : tensor2 A) : tensor2 B :=
  Tensor2 (dim0 t) (dim1 t) ((fun row : list A => f <$> row) <$> rows t).

(** [t.reshape(-1)] *)
Definition flatten {A} (t : tensor2 A) : list A := mjoin (rows t).

(** [torch.stack(tensors, dim=1)] of one-dimensional tensors: it needs a
    non-empty list of tensors of one size. *)
Definition torch_stack_dim1 {A} (tensors : list (list A)) : result (tensor2 A) :=
  match tensors with
  | [] => Raise RuntimeError
  | t0 :: _ =>
      if forallb (fun t => Nat.eqb (length t) (length t0)) tensors
      then Ok (Tensor2 (length t0) (length tensors) (columns (length t0) tensors))
      else Raise RuntimeError
  end.

(** ** pad_sequence and generate_batch *)

(** [max(l)] of a list of sizes. *)
Definition py_max (l : list nat) : result nat :=
  match l with
  | [] => Raise ValueError
  | x :: r => Ok (foldr Nat.max x r)
  end.

(** The body of the loop of [pad_sequence]. *)
Definition pad_one (max_len : nat) (padding_value : Z) (tensor : list Z) : list Z :=
  if Nat.ltb (length tensor) max_len
  then tensor ++ replicate (max_len - length tensor)%nat padding_value
  else take max_len tensor.

Definition pad_sequence (sequences : list (list Z)) (batch_first : bool)
    (max_len : max_len_arg) (padding_value : Z) : result (tensor2 Z) :=
  max_len ← match max_len with
            | MaxNone => py_max (length <$> sequences)
            | MaxInt n => Ok n
            | MaxSame =>
                (* a size is compared with a string in the first iteration *)
                match sequences with
                | [] => Raise RuntimeError
                | _ => Raise TypeError
                end
            end;
  out_tensors ← torch_stack_dim1 (pad_one max_len padding_value <$> sequences);
  if batch_first then mret (transpose01 out_tensors) else mret out_tensors.

(** [LoadDNADataset.generate_batch]: the result is
    [(b_token_ids, b_mask, b_mlm_label)]. *)
Definition generate_batch (d : LoadDNADataset) (data_batch : list (list Z * list Z))
  : result (tensor2 Z * tensor2 bool * tensor2 Z) :=
  let b_token_ids := fst <$> data_batch in
  let b_mlm_label := snd <$> data_batch in
  b_token_ids ← pad_sequence b_token_ids false (max_sen_len d) (PAD_IDX d);
  b_mlm_label ← pad_sequence b_mlm_label false (max_sen_len d) (PAD_IDX d);
  let b_mask := transpose01 (tmap (fun x => bool_decide (x = PAD_IDX d)) b_token_ids) in
  mret (b_token_ids, b_mask, b_mlm_label).

(** ** The cache decorator *)

(** [s.split('.')[0]] *)
Fixpoint before_first_dot (s : string) : string :=
  match s with
  | String c s' => if Ascii.eqb c "."%char then EmptyString else String c (before_first_dot s')
  | EmptyString => EmptyString
  end.

(** [s[n:]] *)
Fixpoint string_from (n : nat) (s : string) : string :=
  match n, s with
  | S n', String _ s' => string_from n' s'
  | _, _ => s
  end.

(** The path of the cache file computed by [wrapper]. *)
Definition cache_data_path (filepath postfix : string) : string :=
  before_first_dot filepath +:+ "_" +:+ postfix +:+ ".pt".

(** [cache(func)] called with [filepath] and [postfix], over the files
    present: the data returned and the files afterwards. *)
Definition cache {D} (func : D) (files : gmap string D) (filepath postfix : string)
  : D * gmap string D :=
  let data_path := cache_data_path filepath postfix in
  match files !! data_path with
  | None => let data := func in (data, <[data_path := data]> files)
  | Some data => (data, files)
  end.

(** [str(n)] of an [int]. *)
Definition str_int (n : Z) : string := NilEmpty.string_of_int (Z.to_int n).

(** [str(self.max_sen_len)] *)
Definition str_max_len (m : max_len_arg) : string :=
  match m with
  | MaxNone => "None"
  | MaxInt n => str_int (Z.of_nat n)
  | MaxSame => "same"
  end.

(** The three [data_process] calls of [load_train_val_test_data]. *)
Inductive split : Type := Test | Train | Val.

Definition split_name (s : split) : string :=
  match s with
  | Test => "test"
  | Train => "train"
  | Val => "val"
  end.

Section CacheKey.
(** [str(x)] of a [float], the shortest decimal that reads back as [x], is
    the interpreter's; it is taken as given. *)
Variable str_float : spec_float -> string.

(** The [postfix] of [load_train_val_test_data]. *)
Definition postfix_of (d : LoadDNADataset) : string :=
  "_ml" +:+ str_max_len (max_sen_len d)
  +:+ "_rs" +:+ str_int (random_state d)
  +:+ "_mr" +:+ string_from 2 (str_float (masked_rate d))
  +:+ "_mtr" +:+ string_from 2 (str_float (masked_token_rate d))
  +:+ "_mtur" +:+ string_from 2 (str_float (masked_token_unchanged_rate d)).

(** The cache file of the [data_process] call for split [s] on
    [filepath]. *)
Definition cache_key (d : LoadDNADataset) (s : split) (filepath : string) : string :=
  cache_data_path filepath (split_name s +:+ postfix_of d).
End CacheKey.

(** ** accuracy *)

Record tensor3 (A : Type) : Type :=
  Tensor3 { sdim0 : nat; sdim1 : nat; sdim2 : nat; cells : list (list (list A)) }.
Arguments Tensor3 {A} sdim0 sdim1 sdim2 cells.
Arguments sdim0 {A} t.
Arguments sdim1 {A} t.
Arguments sdim2 {A} t.
Arguments cells {A} t.

(** Element-wise binary operation on one-dimensional tensors, a tensor of
    one element being broadcast. *)
Definition broadcast2 {A B C} (f : A -> B -> C) (x : list A) (y : list B)
  : result (list C) :=
  if Nat.eqb (length x) (length y) then Ok (zip_with f x y)
  else match x, y with
       | [a], _ => Ok (f a <$> y)
       | _, [b] => Ok ((fun a => f a b) <$> x)
       | _, _ => Raise RuntimeError
       end.

(** [t.sum().item()] of a boolean tensor. *)
Definition count_true (l : list bool) : Z := Z.of_nat (length (filter (fun b => b = true) l)).

Section Evaluation.
(** The logits are floats; only their order matters to [argmax]. *)
Variable score : Type.
Variable score_ltb : score -> score -> bool.

Fixpoint argmax_from (best_i : nat) (best : score) (i : nat) (l : list score) : nat :=
  match l with
  | [] => best_i
  | x :: r =>
      if score_ltb best x then argmax_from i x (S i) r
      else argmax_from best_i best (S i) r
  end.

(** The index of the first maximal value. *)
Definition argmax_list (l : list score) : nat :=
  match l with
  | [] => O
  | x :: r => argmax_from 0 x 1 r
  end.

(** [t.transpose(0, 1).argmax(axis=2)] *)
Definition transpose_argmax (t : tensor3 score) : result (tensor2 Z) :=
  if Nat.eqb (sdim2 t) 0 then Raise IndexError
  else Ok (Tensor2 (sdim1 t) (sdim0 t)
             ((fun row : list (list score) => (fun c => Z.of_nat (argmax_list c)) <$> row)
                <$> columns (sdim1 t) (cells t))).

Definition accuracy (mlm_logits : tensor3 score) (mlm_labels : tensor2 Z) (PAD_IDX : Z)
  : result (spec_float * Z * Z) :=
  p ← transpose_argmax mlm_logits;
  let mlm_pred := flatten p in
  let mlm_true := flatten (transpose01 mlm_labels) in
  mlm_acc ← broadcast2 (fun a b => bool_decide (a = b)) mlm_pred mlm_true;
  let mask := (fun t => negb (bool_decide (t = PAD_IDX))) <$> mlm_true in
  mlm_acc ← broadcast2 andb mlm_acc mask;
  let mlm_correct := count_true mlm_acc in
  let mlm_total := count_true mask in
  c ← float_of_int mlm_correct;
  t ← float_of_int mlm_total;
  if Z.eqb mlm_total 0 then Raise ZeroDivisionError
  else mret (float_div c t, mlm_correct, mlm_total).
End Evaluation.

(** ** Sequence extraction *)

(** [vec[start : start + max_len]] *)
Definition py_slice {A} (vec : list A) (start max_len : nat) : list A :=
  take max_len (drop start vec).

(** [''.join(l)] *)
Definition str_join (l : list string) : string := foldr String.append EmptyString l.

(** [vec2str], on a row of integers. *)
Definition vec2str (vec : list Z) (start max_len : nat) : string :=
  let v := py_slice vec start max_len in
  str_join (str_int <$> v).

(** The two nested loops of [read_dnaseq] over the rows [df], with
    [groups] outer iterations left. *)
Fixpoint read_windows (df : list (list Z)) (groups start max_len : nat) : list string :=
  match groups with
  | O => []
  | S g =>
      ((fun vec => vec2str vec start max_len) <$> df)
      ++ read_windows df g (start + max_len) max_len
  end.

(** [read_dnaseq], on the rows [df] of the table at [filepath]. *)
Definition read_dnaseq (df : list (list Z)) (inital_site number_of_group max_len : nat)
  : M (list string) :=
  random_shuffle (read_windows df number_of_group inital_site max_len).

(** ** data_process *)

(** [list(paragraph)]: the one-character strings of a string. *)
Fixpoint py_list_of_str (s : string) : list string :=
  match s with
  | EmptyString => []
  | String c s' => String c EmptyString :: py_list_of_str s'
  end.

(** [[self.vocab[token] for token in list(paragraph)]] *)
Definition tokenize (v : Vocab) (paragraph : string) : result (list (option nat)) :=
  mapM (Vocab_getitem v) (py_list_of_str paragraph).

(** The truncation to the first [max_position_embeddings] token IDs. *)
Definition truncate_ids {A} (max_position_embeddings : nat) (token_ids : list A) : list A :=
  if Nat.ltb max_position_embeddings (length token_ids)
  then take max_position_embeddings token_ids
  else token_ids.

(** The integer token IDs of a list without [None]. *)
Definition int_ids (token_ids : list (option nat)) : option (list Z) :=
  mapM (fun o => Z.of_nat <$> o) token_ids.

(** [s.split('.')[1]]: the part between the first two dots, [IndexError]
    without a dot. *)
Fixpoint after_first_dot (s : string) : option string :=
  match s with
  | String c s' => if Ascii.eqb c "."%char then Some s' else after_first_dot s'
  | EmptyString => None
  end.

Definition second_dot_field (s : string) : result string :=
  match after_first_dot s with
  | Some rest => Ok (before_first_dot rest)
  | None => Raise IndexError
  end.

(** The processed data: [all_data['data']] and [all_data['max_len']]. *)
Record all_data : Type :=
  AllData { data : list (list Z * list Z); max_len : nat }.

Section DataProcess.
Variable d : LoadDNADataset.

(** The body of the loop of [data_process] on one paragraph: the sample
    [(token_ids, mlm_label)].  With a [None] among the token IDs the
    masking runs with that position as a candidate and one of the two
    [torch.tensor] calls raises. *)
Definition process_paragraph (paragraph : string) : M (list Z * list Z) :=
  token_ids ← lift (tokenize (vocab d) paragraph);
  let token_ids := truncate_ids (max_position_embeddings d) token_ids in
  match int_ids token_ids with
  | Some token_ids => get_masked_sample d token_ids
  | None =>
      let other := Z.max (CLS_IDX d) (SEP_IDX d) + 1 in
      _ ← get_masked_sample d (default other <$> (fmap Z.of_nat <$> token_ids));
      raise TypeError
  end.

Fixpoint process_paragraphs (paragraphs : list string) (data : list (list Z * list Z))
    (max_len : nat) : M all_data :=
  match paragraphs with
  | [] => mret (AllData data max_len)
  | paragraph :: rest =>
      sample ← process_paragraph paragraph;
      process_paragraphs rest (data ++ [sample]) (Nat.max max_len (length sample.1))
  end.

(** The function wrapped by [@cache]: [data_process] on the rows [df] of
    the table at [filepath]. *)
Definition data_process (df : list (list Z)) (filepath : string) : M all_data :=
  paragraphs ← read_dnaseq df (inital_site d) (number_of_group d)
                  (max_position_embeddings d);
  _ ← lift (second_dot_field filepath);
  process_paragraphs paragraphs [] 0.

End DataProcess.

(** [cache(func)] for a [func] that draws and may raise: [wrapper] over the
    cache files present. *)
Definition cache_call {D} (func : M D) (files : gmap string D) (filepath postfix : string)
  : M (D * gmap string D) :=
  let data_path := cache_data_path filepath postfix in
  match files !! data_path with
  | None => data ← func; mret (data, <[data_path := data]> files)
  | Some data => mret (data, files)
  end.

(** ** evaluate *)

Section Evaluate.
Variable score : Type.
Variable score_ltb : score -> score -> bool.
(** The model and [roc_auc] (with [config.vocab_size] and [PAD_IDX]) are
    taken as given; both may raise. *)
Variable model : tensor2 Z -> tensor2 bool -> result (tensor3 score).
Variable roc_auc : tensor3 score -> tensor2 Z -> result spec_float.

(** The loop of [evaluate] over the batches of [data_iter]. *)
Fixpoint evaluate_loop (data_iter : list (tensor2 Z * tensor2 bool * tensor2 Z))
    (PAD_IDX : Z) (mlm_corrects mlm_totals : Z) (auc : spec_float) (cnt : Z)
  : result (Z * Z * spec_float * Z) :=
  match data_iter with
  | [] => mret (mlm_corrects, mlm_totals, auc, cnt)
  | (b_token_ids, b_mask, b_mlm_label) :: rest =>
      mlm_logits ← model b_token_ids b_mask;
      r ← accuracy score score_ltb mlm_logits b_mlm_label PAD_IDX;
      let '(_, mlm_cor, mlm_tot) := r in
      a ← roc_auc mlm_logits b_mlm_label;
      evaluate_loop rest PAD_IDX (mlm_corrects + mlm_cor) (mlm_totals + mlm_tot)
        (SFadd prec emax auc a) (cnt + 1)
  end.

(** [x / n] for a [float] [x] and an [int] [n]. *)
Definition float_div_int (x : spec_float) (n : Z) : result spec_float :=
  t ← float_of_int n;
  if Z.eqb n 0 then Raise ZeroDivisionError else mret (float_div x t).

Definition evaluate (data_iter : list (tensor2 Z * tensor2 bool * tensor2 Z)) (PAD_IDX : Z)
  : result (spec_float * spec_float) :=
  r ← evaluate_loop data_iter PAD_IDX 0 0 (S754_zero false) 0;
  let '(mlm_corrects, mlm_totals, auc, cnt) := r in
  c ← float_of_int mlm_corrects;
  acc ← float_div_int c mlm_totals;
  avg ← float_div_int auc cnt;
  mret (acc, avg).
End Evaluate.

(** ** Predicates of the statements *)

(** [i] is the last index of [l] holding [s]. *)
Definition last_index (l : list string) (s : string) (i : nat) : Prop :=
  l !! i = Some s ∧ ∀ j, (i < j)%nat → l !! j ≠ Some s.

(** The dictionary maps each symbol to its last index in the list. *)
Definition stoi_last (v : Vocab) : Prop :=
  ∀ s k, stoi v !! s = Some k ↔ last_index (itos v) s k.

Definition fails {A} (r : result A) : Prop := ∃ e, r = Raise e.

(** What a committed position whose original token is [orig] may hold. *)
Definition allowed (d : LoadDNADataset) (orig x : Z) : Prop :=
  x = orig ∨ x = MASK_IDS d ∨ 0 ≤ x < vocab_size d.

(** Index [i] holds a token that is neither [[CLS]] nor [[SEP]]. *)
Definition is_candidate (d : LoadDNADataset) (token_ids : list Z) (i : nat) : Prop :=
  ∃ t, token_ids !! i = Some t ∧ t ≠ CLS_IDX d ∧ t ≠ SEP_IDX d.

(** The number of label positions with [label != PAD_IDX]. *)
Definition count_labels (d : LoadDNADataset) (labels : list Z) : nat :=
  length (filter (fun l => l ≠ PAD_IDX d) labels).

(** [round(len * self.masked_rate)] *)
Definition round_len_rate (d : LoadDNADataset) (len : nat) : result Z :=
  x ← int_mul_float (Z.of_nat len) (masked_rate d); py_round x.

(** A float that is neither an infinity nor a NaN. *)
Definition float_is_finite (x : spec_float) : bool :=
  match x with
  | S754_zero _ | S754_finite _ _ _ => true
  | S754_infinity _ | S754_nan => false
  end.

(** The rows of a tensor agree with its shape. *)
Definition tensor_wf {A} (t : tensor2 A) : Prop :=
  length (rows t) = dim0 t ∧ Forall (fun r => length r = dim1 t) (rows t).

(** The target length of a collation: the fixed length if given, else the
    maximum length in the batch. *)
Definition target_len (m : max_len_arg) (sequences : list (list Z)) : nat :=
  match m with
  | MaxInt n => n
  | _ => max_list (length <$> sequences)
  end.

(** The first two axes of a three-dimensional tensor agree with its
    shape. *)
Definition tensor3_wf {A} (t : tensor3 A) : Prop :=
  length (cells t) = sdim0 t ∧ Forall (fun r => length r = sdim1 t) (cells t).

(** The largest value of [random.random()], [1 - 2^-53]. *)
Definition hi_draw : spec_float :=
  binary_normalize prec emax (Z.of_N ((2 ^ 53 - 1) mod 2 ^ 53)) (-53) false.

Fixpoint contains_char (c : ascii) (s : string) : bool :=
  match s with
  | EmptyString => false
  | String c' s' => Ascii.eqb c' c || contains_char c s'
  end.

(** A string without an underscore. *)
Definition plain (s : string) : Prop := contains_char "_" s = false.

(** [a] followed by the segments, each after an underscore. *)
Fixpoint join_segments (a : string) (segments : list string) : string :=
  match segments with
  | [] => a
  | x :: rest => join_segments (a +:+ "_" +:+ x) rest
  end.

(** The segments of a cache file name after the stem of the path. *)
Definition key_segments (str_float : spec_float → string) (d : LoadDNADataset) (s : split)
  : list string :=
  [split_name s;
   "ml" +:+ str_max_len (max_sen_len d);
   "rs" +:+ str_int (random_state d);
   "mr" +:+ string_from 2 (str_float (masked_rate d));
   "mtr" +:+ string_from 2 (str_float (masked_token_rate d));
   "mtur" +:+ string_from 2 (str_float (masked_token_unchanged_rate d)) +:+ ".pt"].

(** What of a build configuration reaches the cache file name. *)
Definition key_fields (str_float : spec_float → string) (d : LoadDNADataset) (s : split)
    (filepath : string)
  : string * split * max_len_arg * Z * string * string * string :=
  (before_first_dot filepath, s, max_sen_len d, random_state d,
   string_from 2 (str_float (masked_rate d)),
   string_from 2 (str_float (masked_token_rate d)),
   string_from 2 (str_float (masked_token_unchanged_rate d))).

(** The cache file name as a function of the fields. *)
Definition key_of_fields
    (f : string * split * max_len_arg * Z * string * string * string) : string :=
  let '(stem, s, m, rs, mr, mtr, mtur) := f in
  stem +:+ "_" +:+ (split_name s +:+ "_ml" +:+ str_max_len m +:+ "_rs" +:+ str_int rs
    +:+ "_mr" +:+ mr +:+ "_mtr" +:+ mtr +:+ "_mtur" +:+ mtur) +:+ ".pt".

(** The renderings of the three rates have no underscore from their third
    character on. *)
Definition rates_plain (str_float : spec_float → string) (d : LoadDNADataset) : Prop :=
  plain (string_from 2 (str_float (masked_rate d))) ∧
  plain (string_from 2 (str_float (masked_token_rate d))) ∧
  plain (string_from 2 (str_float (masked_token_unchanged_rate d))).

(** [str] on the default rates [0.15], [0.8] and [0.5]. *)
Definition str_default_rates (x : spec_float) : string :=
  if SFeqb x f0_15 then "0.15" else if SFeqb x f0_8 then "0.8" else "0.5".

(** The instance [d] with [self.inital_site] set to [n]. *)
Definition with_inital_site (d : LoadDNADataset) (n : nat) : LoadDNADataset :=
  {| vocab := vocab d; PAD_IDX := PAD_IDX d;
     SEP_IDX := SEP_IDX d; CLS_IDX := CLS_IDX d; MASK_IDS := MASK_IDS d;
     max_sen_len := max_sen_len d; max_position_embeddings := max_position_embeddings d;
     random_state := random_state d;
     masked_rate := masked_rate d; masked_token_rate := masked_token_rate d;
     masked_token_unchanged_rate := masked_token_unchanged_rate d;
     inital_site := n; number_of_group := number_of_group d |}.

(** A generator state that reads its raw values from a list, then zeros. *)
Definition tape_of (l : list N) : RandomState :=
  {| tape := fun i => nth i l 0%N; cursor := 0 |}.

(** A line of a text file: [s] followed by a newline. *)
Definition line (s : string) : string := s +:+ String newline EmptyString.

(** The vocabulary file of the specification's scenario. *)
Definition dna_lines : list string :=
  line <$> ["[PAD]"; "[UNK]"; "[CLS]"; "[SEP]"; "[MASK]"; "A"; "C"; "G"; "T"].

(** The instance over that file with the default arguments. *)
Definition dna_dataset : LoadDNADataset :=
  {| vocab := build_vocab dna_lines; PAD_IDX := 0;
     SEP_IDX := 3; CLS_IDX := 2; MASK_IDS := 4;
     max_sen_len := MaxNone; max_position_embeddings := 512;
     random_state := 2022;
     masked_rate := f0_15; masked_token_rate := f0_8;
     masked_token_unchanged_rate := f0_5;
     inital_site := 0; number_of_group := 1 |}.

(** [[CLS] A C G T [SEP]] *)
Definition dna_sample : list Z := [2; 5; 6; 7; 8; 3].

(** The instance [d] with [self.max_sen_len] set to [m]. *)
Definition with_max_sen_len (d : LoadDNADataset) (m : max_len_arg) : LoadDNADataset :=
  {| vocab := vocab d; PAD_IDX := PAD_IDX d;
     SEP_IDX := SEP_IDX d; CLS_IDX := CLS_IDX d; MASK_IDS := MASK_IDS d;
     max_sen_len := m; max_position_embeddings := max_position_embeddings d;
     random_state := random_state d;
     masked_rate := masked_rate d; masked_token_rate := masked_token_rate d;
     masked_token_unchanged_rate := masked_token_unchanged_rate d;
     inital_site := inital_site d; number_of_group := number_of_group d |}.

(** Two samples of lengths 4 and 6. *)
Definition dna_batch : list (list Z * list Z) :=
  [([2; 5; 6; 3], [0; 5; 0; 0]); (dna_sample, [0; 0; 6; 0; 0; 0])].

(** A string without a newline. *)
Definition one_line (s : string) : Prop := contains_char newline s = false.

(** The dictionary has one entry per distinct symbol. *)
Definition stoi_size (v : Vocab) : Prop :=
  (size (stoi v) ≤ length (itos v))%nat ∧
  (size (stoi v) = length (itos v) ↔ NoDup (itos v)).

(** The symbol of a token ID, [None] for [None] or an ID out of range. *)
Definition symbol_of (v : Vocab) (id : option nat) : option string :=
  i ← id; itos v !! i.

(** A row of decimal digits. *)
Definition digit_row (vec : list Z) : Prop := Forall (fun x => 0 ≤ x ≤ 9) vec.

(** The number of values of a list that differ from [pad]. *)
Definition count_ne (pad : Z) (l : list Z) : nat :=
  length (filter (fun x => x ≠ pad) l).

(** The exception of [generate_batch] on the empty batch. *)
Definition empty_batch_error (m : max_len_arg) : pyexn :=
  match m with
  | MaxNone => ValueError
  | MaxInt _ | MaxSame => RuntimeError
  end.

(** Logits of shape [[T, B, V]] with [V > 0] and labels of shape
    [[T, B]]. *)
Definition shapes_agree {A} (mlm_logits : tensor3 A) (mlm_labels : tensor2 Z) : Prop :=
  tensor3_wf mlm_logits ∧ tensor_wf mlm_labels ∧
  sdim0 mlm_logits = dim0 mlm_labels ∧ sdim1 mlm_logits = dim1 mlm_labels ∧
  sdim2 mlm_logits ≠ 0%nat.

(** Some label of the tensor differs from [pad]. *)
Definition has_label (pad : Z) (mlm_labels : tensor2 Z) : Prop :=
  ∃ i j x, tget mlm_labels i j = Some x ∧ x ≠ pad.

(** [sum(l)] of a list of [int]s. *)
Definition sum_Z (l : list Z) : Z := foldr Z.add 0 l.

(** The last character of a string. *)
Fixpoint last_char (s : string) : option ascii :=
  match s with
  | EmptyString => None
  | String c EmptyString => Some c
  | String _ s' => last_char s'
  end.

(** A sample built from [paragraph]: as many labels as tokens, and one
    token per character up to [max_position_embeddings]. *)
Definition sample_of (d : LoadDNADataset) (paragraph : string) (sample : list Z * list Z)
  : Prop :=
  length sample.1 = length sample.2 ∧
  length sample.1 = Nat.min (max_position_embeddings d) (String.length paragraph).

(** The lengths of the token lists of a dataset. *)
Definition sample_lengths (samples : list (list Z * list Z)) : list nat :=
  (fun s => length s.1) <$> samples.

(** A vocabulary file without ['[UNK]'] and the instance over it. *)
Definition bare_lines : list string := line <$> ["[CLS]"; "[SEP]"; "[MASK]"; "1"].

Definition bare_dataset : LoadDNADataset :=
  {| vocab := build_vocab bare_lines; PAD_IDX := 0;
     SEP_IDX := 1; CLS_IDX := 0; MASK_IDS := 2;
     max_sen_len := MaxNone; max_position_embeddings := 512;
     random_state := 2022;
     masked_rate := f0_15; masked_token_rate := f0_8;
     masked_token_unchanged_rate := f0_5;
     inital_site := 0; number_of_group := 1 |}.

(** The symbol at index [id] is [symbol], or ['[UNK]'] when [symbol] is not
    in the vocabulary. *)
Definition resolves (v : Vocab) (symbol : string) (id : Z) : Prop :=
  ∃ i, id = Z.of_nat i ∧
       (itos v !! i = Some symbol ∨ ((symbol ∉ itos v) ∧ itos v !! i = Some UNK)).

(** The generator whose draws make a shuffle of [n] items exchange item
    [q] with the first and leave the others in place. *)
Definition front_tape (n q : nat) : RandomState :=
  {| tape := fun c => let i := (n - 1 - c)%nat in
                      if decide (i = q) then 0%N else N.of_nat i;
     cursor := 0 |}.

(** ** load_train_val_test_data *)

(** What [load_train_val_test_data] returns: the datasets of the
    [DataLoader]s, whose [collate_fn] is the [generate_batch] of the
    instance. *)
Inductive loaders : Type :=
| OnlyTest (test_iter : list (list Z * list Z))
| TrainTestVal (train_iter test_iter val_iter : list (list Z * list Z)).

Section Load.
Variable str_float : spec_float -> string.

(** [load_train_val_test_data] over the tables of the three files and the
    cache files present: the loaders, the instance afterwards ([self] is
    updated when [max_sen_len] is ['same']) and the cache files
    afterwards. *)
Definition load_train_val_test_data (d : LoadDNADataset)
    (train_df val_df test_df : list (list Z))
    (train_file_path val_file_path test_file_path : string) (only_test : bool)
    (files : gmap string all_data)
  : M (loaders * LoadDNADataset * gmap string all_data) :=
  let postfix := postfix_of str_float d in
  r ← cache_call (data_process d test_df test_file_path) files
        test_file_path ("test" +:+ postfix);
  let test_data := data r.1 in
  let files := r.2 in
  if only_test then mret (OnlyTest test_data, d, files)
  else
    r ← cache_call (data_process d train_df train_file_path) files
          train_file_path ("train" +:+ postfix);
    let train_data := data r.1 in
    let max_len := max_len r.1 in
    let files := r.2 in
    let d := match max_sen_len d with
             | MaxSame => with_max_sen_len d (MaxInt max_len)
             | _ => d
             end in
    r ← cache_call (data_process d val_df val_file_path) files
          val_file_path ("val" +:+ postfix);
    let val_data := data r.1 in
    let files := r.2 in
    mret (TrainTestVal train_data test_data val_data, d, files).

End Load.

(** * Vocab: lookups *)

Section VocabFacts.

Lemma Vocab_load_itos lines : ∀ i v,
  itos (Vocab_load i lines v) = itos v ++ (strip_newline <$> lines).
Proof.
  induction lines as [|word rest IH]; intros i v; simpl.
  - by rewrite app_nil_r.
  - rewrite IH. simpl. by rewrite <- app_assoc.
Qed.

Lemma Vocab_add_last word v :
  stoi_last v → stoi_last (Vocab_add (length (itos v)) word v).
Proof.
  intros Hv s k. unfold Vocab_add, last_index. simpl.
  set (w := strip_newline word). set (n := length (itos v)).
  destruct (decide (s = w)) as [->|Hne].
  - rewrite lookup_insert_eq. split.
    + intros [= <-]. split.
      * rewrite lookup_app_r by (subst n; lia).
        by replace (n - length (itos v))%nat with 0%nat by (subst n; lia).
      * intros j Hj. rewrite lookup_ge_None_2; [done|].
        rewrite length_app. simpl. subst n. lia.
    + intros [Hk Hlast]. f_equal.
      apply lookup_lt_Some in Hk as Hlt. rewrite length_app in Hlt. simpl in Hlt.
      destruct (decide (k = n)) as [|Hkn]; [done|]. exfalso.
      apply (Hlast n); [subst n; lia|].
      rewrite lookup_app_r by (subst n; lia).
      by replace (n - length (itos v))%nat with 0%nat by (subst n; lia).
  - rewrite lookup_insert_ne by done. rewrite (Hv s k). unfold last_index.
    assert (Hn : ∀ j, (itos v ++ [w]) !! j = Some s ↔ itos v !! j = Some s).
    { intros j. destruct (decide (j < n)%nat) as [Hj|Hj].
      - by rewrite lookup_app_l.
      - rewrite lookup_app_r by (subst n; lia).
        rewrite (lookup_ge_None_2 (itos v)) by (subst n; lia).
        destruct (j - length (itos v))%nat; simpl; [|done].
        split; [intros [= ?]; by subst|done]. }
    split; intros [Hk Hlast]; (split; [by apply Hn|]);
      intros j Hj Hc; apply (Hlast j Hj); by apply Hn.
Qed.

Lemma Vocab_load_last lines : ∀ v,
  stoi_last v → stoi_last (Vocab_load (length (itos v)) lines v).
Proof.
  induction lines as [|word rest IH]; intros v Hv; simpl; [done|].
  pose proof (IH _ (Vocab_add_last word v Hv)) as H.
  simpl in H. rewrite length_app in H. simpl in H.
  by replace (length (itos v) + 1)%nat with (S (length (itos v))) in H by lia.
Qed.

Lemma Vocab_init_last lines : stoi_last (Vocab_init lines).
Proof.
  apply (Vocab_load_last lines {| stoi := ∅; itos := [] |}).
  intros s k. simpl. rewrite lookup_empty. unfold last_index. simpl.
  split; [done|]. by intros [? _].
Qed.

Lemma Vocab_init_itos lines : itos (Vocab_init lines) = strip_newline <$> lines.
Proof. unfold Vocab_init. by rewrite Vocab_load_itos. Qed.

(** Every symbol of a list has a last index. *)
Lemma last_index_exists (l : list string) (s : string) :
  s ∈ l → ∃ k, last_index l s k.
Proof.
  induction l as [|x l IH] using rev_ind; [by intros ?%elem_of_nil|].
  intros Hin. destruct (decide (x = s)) as [->|Hne].
  - exists (length l). split.
    + rewrite lookup_app_r by lia. by rewrite Nat.sub_diag.
    + intros j Hj. rewrite lookup_ge_None_2; [done|]. rewrite length_app. simpl. lia.
  - apply elem_of_app in Hin as [Hin|Hin%list_elem_of_singleton]; [|congruence].
    destruct (IH Hin) as [k [Hk Hlast]]. exists k. split.
    + rewrite lookup_app_l; [done|]. by eapply lookup_lt_Some.
    + intros j Hj. destruct (decide (j < length l)%nat).
      * rewrite lookup_app_l by done. by apply Hlast.
      * rewrite lookup_app_r by lia.
        destruct (j - length l)%nat; simpl; [by intros [= ?]|done].
Qed.

Lemma stoi_None_iff lines (s : string) :
  stoi (Vocab_init lines) !! s = None ↔ s ∉ itos (Vocab_init lines).
Proof.
  pose proof (Vocab_init_last lines) as Hlast. split.
  - intros Hnone Hin. destruct (last_index_exists _ _ Hin) as [k Hk].
    apply Hlast in Hk. congruence.
  - intros Hnot. destruct (stoi (Vocab_init lines) !! s) as [k|] eqn:E; [|done].
    apply Hlast in E as [E _]. exfalso. apply Hnot.
    apply list_elem_of_lookup. eauto.
Qed.

End VocabFacts.

(** C5, as the code has it.  A lookup never raises: a symbol of the file
    gives the index of its last line, a symbol that is not in the file gives
    the ID of ['[UNK]'] when the file has it, and [None] when the file has
    no ['[UNK]'] either. *)
Theorem Vocab_getitem_cases (lines : list string) (token : string) :
  let v := Vocab_init lines in
  (∀ i, last_index (itos v) token i → Vocab_getitem v token = Ok (Some i)) ∧
  (token ∉ itos v → ∀ u, last_index (itos v) UNK u →
     Vocab_getitem v token = Ok (Some u)) ∧
  (token ∉ itos v → UNK ∉ itos v → Vocab_getitem v token = Ok None) ∧
  ¬ fails (Vocab_getitem v token).
Proof.
  intros v. pose proof (Vocab_init_last lines) as Hlast. fold v in Hlast.
  unfold Vocab_getitem, dict_get, mret, result_ret.
  repeat split.
  - intros i Hi. apply Hlast in Hi. by rewrite Hi.
  - intros Habs u Hu. apply stoi_None_iff in Habs. fold v in Habs.
    apply Hlast in Hu. by rewrite Habs, Hu.
  - intros Habs Hunk. apply stoi_None_iff in Habs, Hunk. fold v in Habs, Hunk.
    by rewrite Habs, Hunk.
  - intros [e He]. discriminate He.
Qed.

(** On the scenario's vocabulary ['G'] is ID 7 and an unknown symbol is the
    ID of ['[UNK]']. *)
Lemma Vocab_getitem_cases_witness :
  Vocab_getitem (Vocab_init dna_lines) "G" = Ok (Some 7%nat) ∧
  Vocab_getitem (Vocab_init dna_lines) "N" = Ok (Some 1%nat).
Proof.
  destruct (Vocab_getitem_cases dna_lines "G") as [HG _].
  destruct (Vocab_getitem_cases dna_lines "N") as (_ & HN & _).
  split.
  - apply HG. split; [reflexivity|].
    intros j Hj. do 8 (destruct j as [|j]; [lia|]).
    destruct j; vm_compute; congruence.
  - apply HN.
    + rewrite Vocab_init_itos. vm_compute. intros H.
      repeat (apply elem_of_cons in H as [H|H]; [discriminate H|]).
      by apply elem_of_nil in H.
    + split; [reflexivity|].
      intros j Hj. do 2 (destruct j as [|j]; [lia|]).
      do 7 (destruct j as [|j]; [vm_compute; congruence|]).
      vm_compute; congruence.
Defined.

(** C5 as stated fails: with a file that has neither the symbol nor
    ['[UNK]'], the lookup returns [None] and raises nothing. *)
Lemma Vocab_getitem_no_UNK :
  ("B" ∉ itos (Vocab_init [line "A"])) ∧
  (UNK ∉ itos (Vocab_init [line "A"])) ∧
  Vocab_getitem (Vocab_init [line "A"]) "B" = Ok None ∧
  ¬ fails (Vocab_getitem (Vocab_init [line "A"]) "B").
Proof.
  assert (Hn : ∀ s : string, s ≠ "A" → s ∉ itos (Vocab_init [line "A"])).
  { intros s Hs H. rewrite Vocab_init_itos in H. vm_compute in H.
    apply elem_of_cons in H as [H|H]; [done|]. by apply elem_of_nil in H. }
  split; [by apply Hn|]. split; [by apply Hn|].
  split; [reflexivity|]. intros [e He]. discriminate He.
Qed.

(** C7, as the code has it.  [itos[stoi[s]] == s] for every known symbol,
    and the lookup of [itos[i]] is the last index holding that symbol; it
    is [i] itself for every valid [i] when no symbol is on two lines. *)
Theorem Vocab_roundtrip (lines : list string) :
  let v := Vocab_init lines in
  (∀ s k, stoi v !! s = Some k → itos v !! k = Some s) ∧
  (∀ i s, itos v !! i = Some s →
     ∃ j, Vocab_getitem v s = Ok (Some j) ∧ last_index (itos v) s j ∧ (i ≤ j)%nat) ∧
  (NoDup (itos v) → ∀ i s, itos v !! i = Some s → Vocab_getitem v s = Ok (Some i)).
Proof.
  intros v. pose proof (Vocab_init_last lines) as Hlast. fold v in Hlast.
  assert (Hget : ∀ i s, itos v !! i = Some s →
     ∃ j, Vocab_getitem v s = Ok (Some j) ∧ last_index (itos v) s j ∧ (i ≤ j)%nat).
  { intros i s Hi.
    destruct (last_index_exists (itos v) s) as [j Hj].
    { apply list_elem_of_lookup. eauto. }
    exists j. split; [|split; [done|]].
    - apply Hlast in Hj. unfold Vocab_getitem, dict_get. by rewrite Hj.
    - destruct Hj as [_ Hj]. destruct (decide (i ≤ j)%nat); [done|].
      exfalso. apply (Hj i); [lia|done]. }
  split; [|split; [done|]].
  - intros s k Hk. by apply Hlast in Hk as [Hk _].
  - intros Hnd i s Hi. destruct (Hget i s Hi) as (j & -> & [Hj _] & _).
    do 2 f_equal. by eapply NoDup_lookup.
Qed.

Lemma Vocab_roundtrip_witness :
  itos (Vocab_init dna_lines) !! 7%nat = Some "G" ∧
  Vocab_getitem (Vocab_init dna_lines) "G" = Ok (Some 7%nat).
Proof.
  split; [reflexivity|].
  apply (Vocab_roundtrip dna_lines); [|reflexivity].
  rewrite Vocab_init_itos. compute_done.
Defined.

(** C7 as stated fails on a file that has a symbol on two lines: index 0
    holds ['A'], and the lookup of ['A'] is 1. *)
Lemma Vocab_roundtrip_duplicate :
  itos (Vocab_init [line "A"; line "A"]) !! 0%nat = Some "A" ∧
  Vocab_getitem (Vocab_init [line "A"; line "A"]) "A" = Ok (Some 1%nat).
Proof. split; reflexivity. Qed.

(** * The random generator *)

Ltac unfold_monad :=
  unfold mbind, M_bind, result_bind, mret, M_ret, result_ret, lift, raise.

Section RandomFacts.

Lemma random_random_ok st :
  ∃ x st', random_random st = Ok (x, st').
Proof. unfold random_random, next_raw. unfold_monad. eauto. Qed.

Lemma random_randint_ok a b st :
  a ≤ b → ∃ r st', random_randint a b st = Ok (r, st') ∧ a ≤ r ≤ b.
Proof.
  intros Hab. unfold random_randint, randbelow, next_raw.
  destruct (b <? a) eqn:E; [apply Z.ltb_lt in E; lia|].
  unfold_monad. eexists _, _. split; [reflexivity|].
  pose proof (Z.mod_pos_bound (Z.of_N (tape st (cursor st))) (b - a + 1)). lia.
Qed.

Lemma swap_perm {A} (x : list A) (i j : nat) : swap x i j ≡ₚ x.
Proof.
  unfold swap.
  destruct (x !! i) as [xi|] eqn:Hi; [|done].
  destruct (x !! j) as [xj|] eqn:Hj; [|done].
  apply lookup_lt_Some in Hi as Hli. apply lookup_lt_Some in Hj as Hlj.
  apply Permutation_inj. split; [by rewrite !length_insert|].
  exists (fun k => if decide (k = i) then j else if decide (k = j) then i else k).
  split.
  - intros a b. repeat case_decide; intros; subst; congruence.
  - intros k. rewrite !list_lookup_insert, !length_insert.
    repeat case_decide; destruct_and?; subst;
      repeat match goal with H : ¬ (_ ∧ _) |- _ => apply not_and_l in H as [?|?] end;
      congruence || lia.
Qed.

Lemma shuffle_from_perm {A} (i : nat) : ∀ (x : list A) st,
  ∃ y st', shuffle_from i x st = Ok (y, st') ∧ y ≡ₚ x.
Proof.
  induction i as [|i IH]; intros x st.
  - exists x, st. by split.
  - cbn [shuffle_from]. unfold randbelow, next_raw. unfold_monad.
    edestruct IH as (y & st' & Hy & Hp).
    exists y, st'. split; [apply Hy|].
    rewrite Hp. apply swap_perm.
Qed.

Lemma random_shuffle_perm {A} (x : list A) st :
  ∃ y st', random_shuffle x st = Ok (y, st') ∧ y ≡ₚ x.
Proof. apply shuffle_from_perm. Qed.

Lemma random_shuffle_nil {A} st : random_shuffle (@nil A) st = Ok ([], st).
Proof. reflexivity. Qed.

End RandomFacts.

(** * The masking engine *)

Section MaskingFacts.
Variable d : LoadDNADataset.

Lemma corrupt_token_ok tok st :
  0 < vocab_size d →
  ∃ x st', corrupt_token d tok st = Ok (x, st') ∧ allowed d tok x.
Proof.
  intros Hv. unfold corrupt_token.
  destruct (random_random_ok st) as (r1 & st1 & H1).
  unfold mbind at 1. unfold M_bind. rewrite H1.
  destruct (float_lt r1 (masked_token_rate d)).
  - eexists _, _. split; [reflexivity|]. right. by left.
  - destruct (random_random_ok st1) as (r2 & st2 & H2).
    unfold mbind at 1. unfold M_bind. rewrite H2.
    destruct (float_lt (masked_token_unchanged_rate d) r2).
    + destruct (random_randint_ok 0 (vocab_size d - 1) st2) as (x & st3 & H3 & Hx); [lia|].
      exists x, st3. split; [done|]. right. right. lia.
    + eexists _, _. split; [reflexivity|]. by left.
Qed.

Lemma replace_loop_spec token_ids k :
  0 < vocab_size d →
  ∀ cands pred inp st,
    length inp = length token_ids →
    (∀ p, p ∈ cands → (p < length token_ids)%nat) →
    let taken := take (Z.to_nat (k - Z.of_nat (length pred))) cands in
    ∃ inp' st',
      replace_loop d token_ids k cands pred inp st = Ok ((pred ++ taken, inp'), st') ∧
      length inp' = length token_ids ∧
      (∀ i, i ∉ taken → inp' !! i = inp !! i) ∧
      (∀ i t, i ∈ taken → token_ids !! i = Some t →
         ∃ x, inp' !! i = Some x ∧ allowed d t x).
Proof.
  intros Hv. induction cands as [|p rest IH]; intros pred inp st Hlen Hrange taken.
  - subst taken. rewrite take_nil, app_nil_r. exists inp, st.
    repeat split; [done|]. by intros i t ?%elem_of_nil.
  - cbn [replace_loop].
    destruct (Z.of_nat (length pred) >=? k) eqn:E.
    + rewrite Z.geb_leb in E. apply Z.leb_le in E.
      subst taken. replace (Z.to_nat (k - Z.of_nat (length pred))) with 0%nat by lia.
      simpl. rewrite app_nil_r. exists inp, st.
      repeat split; [done|]. by intros i t ?%elem_of_nil.
    + rewrite Z.geb_leb in E. apply Z.leb_gt in E.
      destruct (lookup_lt_is_Some_2 token_ids p) as [tok Htok].
      { apply Hrange. by left. }
      rewrite Htok.
      destruct (corrupt_token_ok tok st Hv) as (x & st1 & Hx & Hall).
      unfold mbind at 1. unfold M_bind. rewrite Hx.
      destruct (IH (pred ++ [p]) (<[p:=x]> inp) st1) as (inp' & st' & Hrun & Hlen' & Hout & Hin).
      { by rewrite length_insert. }
      { intros q Hq. apply Hrange. by right. }
      rewrite length_app in Hrun, Hout, Hin. simpl in Hrun, Hout, Hin.
      set (m := Z.to_nat (k - Z.of_nat (length pred + 1))) in *.
      assert (Htk : taken = p :: take m rest).
      { subst taken m.
        replace (Z.to_nat (k - Z.of_nat (length pred)))
          with (S (Z.to_nat (k - Z.of_nat (length pred + 1)))) by lia.
        done. }
      rewrite Htk. exists inp', st'. split; [|split; [done|split]].
      * rewrite Hrun. by rewrite <- app_assoc.
      * intros i Hi. apply not_elem_of_cons in Hi as [Hip Hi].
        rewrite (Hout i Hi). by rewrite list_lookup_insert_ne.
      * intros i t Hi Ht. destruct (decide (i ∈ take m rest)) as [Hi'|Hi'].
        { by apply Hin. }
        apply elem_of_cons in Hi as [->|Hi]; [|done].
        pose proof (lookup_lt_Some _ _ _ Htok) as Hp.
        rewrite (Hout p Hi'). rewrite list_lookup_insert_eq by lia.
        exists x. split; [done|]. congruence.
Qed.

Lemma candidates_from_elem token_ids : ∀ i p,
  p ∈ candidates_from d i token_ids ↔
  (i ≤ p)%nat ∧ ∃ t, token_ids !! (p - i)%nat = Some t ∧ t ≠ CLS_IDX d ∧ t ≠ SEP_IDX d.
Proof.
  induction token_ids as [|ids rest IH]; intros i p; cbn [candidates_from].
  - split; [by intros ?%elem_of_nil|]. by intros [_ (t & Ht & _)].
  - assert (Hrest : p ∈ candidates_from d (S i) rest ↔
      (i < p)%nat ∧ ∃ t, (ids :: rest) !! (p - i)%nat = Some t ∧ t ≠ CLS_IDX d ∧ t ≠ SEP_IDX d).
    { rewrite IH. split.
      - intros [Hle (t & Ht & Hc)]. split; [lia|]. exists t. split; [|done].
        replace (p - i)%nat with (S (p - S i)) by lia. done.
      - intros [Hlt (t & Ht & Hc)]. split; [lia|]. exists t. split; [|done].
        replace (p - i)%nat with (S (p - S i)) in Ht by lia. done. }
    case_bool_decide as Hspecial.
    + rewrite Hrest. split.
      * intros [Hlt H]. split; [lia|done].
      * intros [Hle (t & Ht & Hc1 & Hc2)]. split; [|by exists t].
        destruct (decide (p = i)) as [->|]; [|lia]. exfalso.
        rewrite Nat.sub_diag in Ht. simpl in Ht. injection Ht as ->.
        apply elem_of_cons in Hspecial as [?|Hs]; [done|].
        by apply list_elem_of_singleton in Hs.
    + rewrite elem_of_cons, Hrest. split.
      * intros [->|[Hlt H]]; [|split; [lia|done]].
        split; [done|]. exists ids. rewrite Nat.sub_diag. split; [done|].
        split; intros ->; apply Hspecial; [by left|right; by left].
      * intros [Hle H]. destruct (decide (p = i)); [by left|right]. split; [lia|done].
Qed.

Lemma candidates_from_NoDup token_ids : ∀ i, NoDup (candidates_from d i token_ids).
Proof.
  induction token_ids as [|ids rest IH]; intros i; cbn [candidates_from].
  - constructor.
  - case_bool_decide; [apply IH|]. constructor; [|apply IH].
    rewrite candidates_from_elem. intros [Hle _]. lia.
Qed.

Lemma candidates_are_candidates token_ids p :
  p ∈ candidates_from d 0 token_ids ↔ is_candidate d token_ids p.
Proof.
  rewrite candidates_from_elem. rewrite Nat.sub_0_r. unfold is_candidate.
  split; [by intros [_ H]|]. intros H. split; [lia|done].
Qed.

Lemma make_labels_lookup token_ids pred i :
  make_labels d token_ids pred !! i =
  (fun t => if decide (i ∈ pred) then t else PAD_IDX d) <$> token_ids !! i.
Proof. unfold make_labels. by rewrite list_lookup_imap. Qed.

End MaskingFacts.

(** Counting the labels that are not the padding value. *)
Section CountFacts.
Context (Q : nat → Prop) `{!∀ p, Decision (Q p)}.

Lemma filter_all (l : list nat) : (∀ p, p ∈ l → Q p) → filter Q l = l.
Proof.
  induction l as [|a l IH]; intros Hall; [done|].
  rewrite filter_cons_True by (apply Hall; by left).
  f_equal. apply IH. intros p Hp. apply Hall. by right.
Qed.

Lemma filter_from_split (pred : list nat) (o : nat) :
  NoDup pred →
  length (filter (fun p => (o ≤ p)%nat ∧ Q p) pred) =
  ((if decide (o ∈ pred ∧ Q o) then 1 else 0)
   + length (filter (fun p => (S o ≤ p)%nat ∧ Q p) pred))%nat.
Proof.
  induction pred as [|a pred IH]; intros Hnd.
  - rewrite !filter_nil. case_decide as H1; [|done].
    destruct H1 as [H1 _]. by apply elem_of_nil in H1.
  - apply NoDup_cons in Hnd as [Ha Hnd]. specialize (IH Hnd).
    rewrite !filter_cons.
    destruct (decide (a = o)) as [->|Hne].
    + rewrite (decide_False (P := (S o ≤ o)%nat ∧ Q o)) by lia.
      rewrite (decide_False (P := o ∈ pred ∧ Q o)) in IH by tauto.
      destruct (decide (Q o)) as [Hq|Hq].
      * rewrite (decide_True (P := (o ≤ o)%nat ∧ Q o)) by done.
        rewrite (decide_True (P := o ∈ o :: pred ∧ Q o)) by (split; [by left|done]).
        simpl. lia.
      * rewrite (decide_False (P := (o ≤ o)%nat ∧ Q o)) by tauto.
        rewrite (decide_False (P := o ∈ o :: pred ∧ Q o)) by tauto.
        lia.
    + assert (Hin : o ∈ a :: pred ∧ Q o ↔ o ∈ pred ∧ Q o).
      { rewrite elem_of_cons. split; [intros [[?|?] ?]|intros [? ?]]; eauto; congruence. }
      rewrite (decide_ext _ _ _ _ Hin).
      assert (Hle : (o ≤ a)%nat ∧ Q a ↔ (S o ≤ a)%nat ∧ Q a).
      { split; intros [? ?]; (split; [lia|done]). }
      rewrite (decide_ext _ _ _ _ Hle).
      destruct (decide ((S o ≤ a)%nat ∧ Q a)); simpl; lia.
Qed.

Lemma count_imap (PAD : Z) (pred : list nat) :
  NoDup pred →
  ∀ (toks : list Z) (o : nat),
    (∀ idx t, toks !! idx = Some t → (Q (o + idx)%nat ↔ t ≠ PAD)) →
    (∀ p, p ∈ pred → (o ≤ p)%nat → (p < o + length toks)%nat) →
    length (filter (fun l => l ≠ PAD)
              (imap (fun idx tok => if decide ((o + idx)%nat ∈ pred) then tok else PAD) toks))
    = length (filter (fun p => (o ≤ p)%nat ∧ Q p) pred).
Proof.
  intros Hnd. induction toks as [|t r IH]; intros o HQ Hrange.
  - simpl. symmetry. apply length_zero_iff_nil.
    destruct (filter _ pred) as [|p l] eqn:E; [done|]. exfalso.
    assert (Hp : p ∈ filter (fun p => (o ≤ p)%nat ∧ Q p) pred) by (rewrite E; by left).
    apply list_elem_of_filter in Hp as [[Hle _] Hp].
    specialize (Hrange p Hp Hle). simpl in Hrange. lia.
  - assert (H1 : ∀ idx t', r !! idx = Some t' → (Q (S o + idx)%nat ↔ t' ≠ PAD)).
    { intros idx t' Ht'. rewrite <- (HQ (S idx) t' Ht').
      by replace (o + S idx)%nat with (S o + idx)%nat by lia. }
    assert (H2 : ∀ p, p ∈ pred → (S o ≤ p)%nat → (p < S o + length r)%nat).
    { intros p Hp Hle. specialize (Hrange p Hp). simpl in Hrange. lia. }
    pose proof (IH (S o) H1 H2) as IH'.
    rewrite imap_cons.
    rewrite (imap_ext _ (fun idx tok => if decide ((S o + idx)%nat ∈ pred) then tok else PAD)).
    2:{ intros i x _. simpl. by replace (o + S i)%nat with (S (o + i)) by lia. }
    rewrite filter_cons, (filter_from_split pred o Hnd).
    replace (o + 0)%nat with o by lia.
    specialize (HQ 0%nat t eq_refl). replace (o + 0)%nat with o in HQ by lia.
    destruct (decide (o ∈ pred)) as [Ho|Ho].
    + destruct (decide (t ≠ PAD)) as [Ht|Ht].
      * rewrite (decide_True (P := o ∈ pred ∧ Q o)) by tauto. cbn [length]. by rewrite IH'.
      * rewrite (decide_False (P := o ∈ pred ∧ Q o)) by tauto. cbn [length]. by rewrite IH'.
    + rewrite (decide_False (P := PAD ≠ PAD)) by congruence.
      rewrite (decide_False (P := o ∈ pred ∧ Q o)) by tauto. cbn [length]. by rewrite IH'.
Qed.

End CountFacts.

Section SampleFacts.
Variable d : LoadDNADataset.

(** The labels that differ from [PAD_IDX] are those of the committed
    positions whose token is not [PAD_IDX]. *)
Lemma count_make_labels token_ids pred :
  NoDup pred →
  (∀ p, p ∈ pred → (p < length token_ids)%nat) →
  count_labels d (make_labels d token_ids pred)
  = length (filter (fun p => token_ids !! p ≠ Some (PAD_IDX d)) pred).
Proof.
  intros Hnd Hrange. unfold count_labels, make_labels.
  rewrite (imap_ext _ (fun idx tok => if decide ((0 + idx)%nat ∈ pred) then tok else PAD_IDX d))
    by done.
  rewrite (count_imap (fun p => token_ids !! p ≠ Some (PAD_IDX d)) (PAD_IDX d) pred Hnd).
  - apply (f_equal length), list_filter_iff. intros p. split; [tauto|]. split; [lia|done].
  - intros idx t Ht. simpl. rewrite Ht. split; congruence.
  - intros p Hp _. simpl. by apply Hrange.
Qed.

Lemma num_mlm_preds_of_round len n :
  round_len_rate d len = Ok n → num_mlm_preds_of d len = Ok (Z.max 1 n).
Proof.
  unfold round_len_rate, num_mlm_preds_of.
  destruct (int_mul_float _ _) as [x|e]; simpl; [|done].
  destruct (py_round x) as [m|e]; simpl; [|done]. by intros [= ->].
Qed.

(** One run of [get_masked_sample] from any generator state. *)
Lemma get_masked_sample_run token_ids st n :
  round_len_rate d (length token_ids) = Ok n →
  0 < vocab_size d →
  ∃ shuffled corrupted st',
    shuffled ≡ₚ candidates_from d 0 token_ids ∧
    let committed := take (Z.to_nat (Z.max 1 n)) shuffled in
    get_masked_sample_trace d token_ids st
      = Ok ((committed, (corrupted, make_labels d token_ids committed)), st') ∧
    get_masked_sample d token_ids st
      = Ok ((corrupted, make_labels d token_ids committed), st') ∧
    length corrupted = length token_ids ∧
    (∀ i, i ∉ committed → corrupted !! i = token_ids !! i) ∧
    (∀ i t, i ∈ committed → token_ids !! i = Some t →
       ∃ x, corrupted !! i = Some x ∧ allowed d t x).
Proof.
  intros Hn Hv.
  destruct (random_shuffle_perm (candidates_from d 0 token_ids) st)
    as (shuffled & st1 & Hsh & Hperm).
  destruct (replace_loop_spec d token_ids (Z.max 1 n) Hv shuffled [] token_ids st1)
    as (inp' & st' & Hrun & Hlen & Hout & Hin); [done| |].
  { intros p Hp. rewrite Hperm in Hp.
    apply candidates_are_candidates in Hp as (t & Ht & _).
    by eapply lookup_lt_Some. }
  simpl in Hrun, Hout, Hin. rewrite Z.sub_0_r in Hrun, Hout, Hin.
  exists shuffled, inp', st'. split; [done|]. simpl.
  apply num_mlm_preds_of_round in Hn.
  split; [|split; [|done]].
  - unfold get_masked_sample_trace, replace_masked_tokens_trace.
    unfold_monad. by rewrite Hsh, Hn, Hrun.
  - unfold get_masked_sample, replace_masked_tokens, replace_masked_tokens_trace.
    unfold_monad. by rewrite Hsh, Hn, Hrun.
Qed.

End SampleFacts.

Lemma dna_dataset_init : LoadDNADataset_init dna_lines 0 = Some dna_dataset.
Proof. reflexivity. Qed.

Lemma dna_vocab_size : vocab_size dna_dataset = 9.
Proof. reflexivity. Qed.

Lemma dna_round_len_rate : round_len_rate dna_dataset (length dna_sample) = Ok 1.
Proof. reflexivity. Qed.

(** With the default rate the target count is computed for every length up
    to [max_position_embeddings]. *)
Lemma dna_round_len_rate_total (len : nat) :
  (len ≤ max_position_embeddings dna_dataset)%nat →
  ∃ n, round_len_rate dna_dataset len = Ok n.
Proof.
  intros Hlen.
  assert (H : forallb (fun l => match round_len_rate dna_dataset l with
                                | Ok _ => true
                                | Raise _ => false
                                end) (seq 0 513) = true)
    by (vm_compute; reflexivity).
  rewrite forallb_forall in H. specialize (H len).
  destruct (round_len_rate dna_dataset len) as [n|e]; [by exists n|].
  discriminate H. apply in_seq. simpl in Hlen. lia.
Qed.

(** So, in the default configuration, [get_masked_sample] returns on every
    truncated sequence and from every generator state. *)
Lemma dna_get_masked_sample_total (token_ids : list Z) (st : RandomState) :
  (length token_ids ≤ max_position_embeddings dna_dataset)%nat →
  ∃ corrupted labels st',
    get_masked_sample dna_dataset token_ids st = Ok ((corrupted, labels), st').
Proof.
  intros Hlen. destruct (dna_round_len_rate_total _ Hlen) as [n Hn].
  destruct (get_masked_sample_run dna_dataset token_ids st n Hn)
    as (shuffled & corrupted & st' & _ & _ & Hrun & _); [by rewrite dna_vocab_size|].
  eauto.
Qed.

(** C1.  Whenever the target count is computed and the vocabulary is not
    empty, [get_masked_sample] returns, from any generator state, two lists
    of the length of the input; every committed position is a candidate
    (its token is neither [[CLS]] nor [[SEP]]), its label is the original
    token and its corrupted token is the original, the [[MASK]] ID or a
    value in [[0, vocab_size)]; every other position keeps its token and has
    label [PAD_IDX]. *)
Theorem get_masked_sample_invariant (d : LoadDNADataset) (token_ids : list Z)
    (st : RandomState) (n : Z) :
  round_len_rate d (length token_ids) = Ok n →
  0 < vocab_size d →
  ∃ committed corrupted labels st',
    get_masked_sample_trace d token_ids st = Ok ((committed, (corrupted, labels)), st') ∧
    get_masked_sample d token_ids st = Ok ((corrupted, labels), st') ∧
    length corrupted = length token_ids ∧
    length labels = length token_ids ∧
    (∀ i, i ∈ committed → is_candidate d token_ids i) ∧
    (∀ i t, token_ids !! i = Some t →
       (i ∈ committed ∧ labels !! i = Some t ∧
        ∃ x, corrupted !! i = Some x ∧ allowed d t x)
       ∨ ((i ∉ committed) ∧ corrupted !! i = Some t ∧ labels !! i = Some (PAD_IDX d))).
Proof.
  intros Hn Hv.
  destruct (get_masked_sample_run d token_ids st n Hn Hv)
    as (shuffled & corrupted & st' & Hperm & Htrace & Hrun & Hlen & Hout & Hin).
  set (committed := take (Z.to_nat (Z.max 1 n)) shuffled) in *.
  exists committed, corrupted, (make_labels d token_ids committed), st'.
  split; [done|]. split; [done|]. split; [done|].
  split; [unfold make_labels; by rewrite length_imap|]. split.
  - intros i Hi. apply candidates_are_candidates. rewrite <- Hperm.
    by apply (subseteq_take (Z.to_nat (Z.max 1 n))).
  - intros i t Ht. rewrite make_labels_lookup, Ht. simpl.
    destruct (decide (i ∈ committed)) as [Hi|Hi].
    + left. split; [done|]. split; [done|]. by apply Hin.
    + right. split; [done|]. split; [|done]. by rewrite Hout.
Qed.

Lemma get_masked_sample_invariant_witness :
  ∃ corrupted labels st',
    get_masked_sample dna_dataset dna_sample (tape_of []) = Ok ((corrupted, labels), st') ∧
    length corrupted = 6%nat ∧ length labels = 6%nat.
Proof.
  destruct (get_masked_sample_invariant dna_dataset dna_sample (tape_of []) 1)
    as (committed & corrupted & labels & st' & _ & Hrun & Hc & Hl & _).
  - reflexivity.
  - reflexivity.
  - exists corrupted, labels, st'. split; [exact Hrun|]. split; [exact Hc|exact Hl].
Defined.

(** C2, as the code has it.  The committed positions are distinct and
    their number is [min(max(1, round(len * masked_rate)), candidates)]; the
    labels that differ from [PAD_IDX] are those of the committed positions
    whose token is not [PAD_IDX], so their number is that minimum when no
    token of the sequence is [PAD_IDX]. *)
Theorem masked_label_count (d : LoadDNADataset) (token_ids : list Z)
    (st : RandomState) (n : Z) :
  round_len_rate d (length token_ids) = Ok n →
  0 < vocab_size d →
  let target := Z.min (Z.max 1 n) (Z.of_nat (length (candidates_from d 0 token_ids))) in
  ∃ committed corrupted labels st',
    get_masked_sample_trace d token_ids st = Ok ((committed, (corrupted, labels)), st') ∧
    get_masked_sample d token_ids st = Ok ((corrupted, labels), st') ∧
    NoDup committed ∧
    Z.of_nat (length committed) = target ∧
    count_labels d labels
      = length (filter (fun p => token_ids !! p ≠ Some (PAD_IDX d)) committed) ∧
    (PAD_IDX d ∉ token_ids → Z.of_nat (count_labels d labels) = target).
Proof.
  intros Hn Hv target.
  destruct (get_masked_sample_run d token_ids st n Hn Hv)
    as (shuffled & corrupted & st' & Hperm & Htrace & Hrun & Hlen & Hout & Hin).
  set (committed := take (Z.to_nat (Z.max 1 n)) shuffled) in *.
  assert (Hnd : NoDup committed).
  { eapply sublist_NoDup; [|apply sublist_take].
    rewrite Hperm. apply candidates_from_NoDup. }
  assert (Hrange : ∀ p, p ∈ committed → (p < length token_ids)%nat).
  { intros p Hp. apply (subseteq_take (Z.to_nat (Z.max 1 n))) in Hp.
    rewrite Hperm in Hp. apply candidates_are_candidates in Hp as (t & Ht & _).
    by eapply lookup_lt_Some. }
  assert (Hcount : Z.of_nat (length committed) = target).
  { subst committed target. rewrite length_take.
    rewrite (Permutation_length Hperm). lia. }
  exists committed, corrupted, (make_labels d token_ids committed), st'.
  split; [done|]. split; [done|]. split; [done|]. split; [done|].
  pose proof (count_make_labels d token_ids committed Hnd Hrange) as Hlab.
  split; [done|].
  intros Hpad. rewrite Hlab, <- Hcount. f_equal. f_equal.
  apply filter_all. intros p _ Hp. apply Hpad.
  apply list_elem_of_lookup. eauto.
Qed.

Lemma masked_label_count_witness :
  ∃ corrupted labels st',
    get_masked_sample dna_dataset dna_sample (tape_of []) = Ok ((corrupted, labels), st') ∧
    Z.of_nat (count_labels dna_dataset labels) = 1.
Proof.
  destruct (masked_label_count dna_dataset dna_sample (tape_of []) 1)
    as (committed & corrupted & labels & st' & _ & Hrun & _ & _ & _ & Hcount).
  - reflexivity.
  - reflexivity.
  - exists corrupted, labels, st'. split; [exact Hrun|].
    rewrite Hcount; [reflexivity|].
    intros H. unfold dna_sample in H.
    repeat (apply elem_of_cons in H as [H|H]; [discriminate H|]).
    by apply elem_of_nil in H.
Defined.

(** C2 as stated fails when a candidate position holds the token
    [PAD_IDX]: on [[CLS] [PAD] [SEP]] the one candidate is committed, its
    label is its token, 0, and no label differs from [PAD_IDX], while the
    minimum is 1. *)
Lemma masked_label_count_pad_token :
  is_candidate dna_dataset [2; 0; 3] 1 ∧
  round_len_rate dna_dataset 3 = Ok 0 ∧
  Z.min (Z.max 1 0) (Z.of_nat (length (candidates_from dna_dataset 0 [2; 0; 3]))) = 1 ∧
  ∃ corrupted labels st',
    get_masked_sample dna_dataset [2; 0; 3] (tape_of []) = Ok ((corrupted, labels), st') ∧
    labels = [0; 0; 0] ∧
    count_labels dna_dataset labels = 0%nat.
Proof.
  split; [exists 0; by repeat split|]. split; [reflexivity|]. split; [reflexivity|].
  eexists _, _, _. split; [reflexivity|]. split; reflexivity.
Qed.

(** C4.  With a finite [masked_rate] the empty sequence gives the target
    count [max(1, round(0 * masked_rate)) = 1], no candidate, and two empty
    lists, from any generator state and without a draw. *)
Theorem get_masked_sample_empty (d : LoadDNADataset) (st : RandomState) :
  float_is_finite (masked_rate d) = true →
  round_len_rate d 0 = Ok 0 ∧
  num_mlm_preds_of d 0 = Ok 1 ∧
  candidates_from d 0 [] = [] ∧
  get_masked_sample d [] st = Ok (([], []), st).
Proof.
  intros Hfin.
  assert (Hr : round_len_rate d 0 = Ok 0).
  { unfold round_len_rate, int_mul_float. destruct (masked_rate d); try discriminate Hfin;
      reflexivity. }
  pose proof (num_mlm_preds_of_round d 0%nat 0 Hr) as Hk.
  split; [done|]. split; [done|]. split; [done|].
  unfold get_masked_sample. unfold mbind at 1. unfold M_bind.
  cbn [candidates_from length]. rewrite random_shuffle_nil.
  unfold mbind at 1. unfold M_bind, lift. rewrite Hk. reflexivity.
Qed.

Lemma get_masked_sample_empty_witness :
  get_masked_sample dna_dataset [] (tape_of []) = Ok (([], []), tape_of []).
Proof.
  apply (get_masked_sample_empty dna_dataset (tape_of [])). reflexivity.
Defined.

(** * Tensors *)

Section TensorFacts.
Context {A : Type}.
Implicit Types (xs : list (list A)) (x : tensor2 A).

Lemma length_columns n : ∀ xs, length (columns n xs) = n.
Proof. induction n as [|n IH]; intros xs; simpl; [done|]. by rewrite IH. Qed.

Lemma omap_head_lookup xs : omap head xs = omap (fun r => r !! 0%nat) xs.
Proof.
  induction xs as [|r xs IH]; [done|]. cbn. rewrite IH. by rewrite head_lookup.
Qed.

Lemma omap_tail_lookup xs t :
  omap (fun r => r !! t) (tail <$> xs) = omap (fun r => r !! S t) xs.
Proof.
  induction xs as [|r xs IH]; [done|]. cbn. rewrite IH. by rewrite lookup_tail.
Qed.

(** Row [t] of the columns is the list of the [t]-th elements. *)
Lemma columns_lookup n : ∀ xs t,
  (t < n)%nat → columns n xs !! t = Some (omap (fun r => r !! t) xs).
Proof.
  induction n as [|n IH]; intros xs t Ht; [lia|]. destruct t as [|t]; simpl.
  - by rewrite omap_head_lookup.
  - rewrite IH by lia. by rewrite omap_tail_lookup.
Qed.

Lemma omap_lookup_rect xs t :
  Forall (fun r => (t < length r)%nat) xs →
  length (omap (fun r => r !! t) xs) = length xs ∧
  ∀ b, omap (fun r => r !! t) xs !! b = (r ← xs !! b; r !! t).
Proof.
  induction 1 as [|r xs Hr Hxs [IHl IHb]]; [by split; [|intros []]|].
  destruct (lookup_lt_is_Some_2 r t Hr) as [a Ha].
  cbn. rewrite Ha. split; [simpl; by rewrite IHl|].
  intros [|b]; simpl; [done|apply IHb].
Qed.

Lemma columns_wf n xs :
  Forall (fun r => (n ≤ length r)%nat) xs →
  tensor_wf (Tensor2 n (length xs) (columns n xs)).
Proof.
  intros Hxs. split; simpl; [apply length_columns|].
  apply Forall_lookup. intros t col Hcol.
  assert (Ht : (t < n)%nat).
  { apply lookup_lt_Some in Hcol. by rewrite length_columns in Hcol. }
  rewrite columns_lookup in Hcol by done. injection Hcol as <-.
  apply omap_lookup_rect. eapply Forall_impl; [exact Hxs|]. simpl. lia.
Qed.

Lemma columns_get n xs t b :
  Forall (fun r => (n ≤ length r)%nat) xs → (t < n)%nat →
  (col ← columns n xs !! t; col !! b) = (r ← xs !! b; r !! t).
Proof.
  intros Hxs Ht. rewrite columns_lookup by done. simpl.
  apply omap_lookup_rect. eapply Forall_impl; [exact Hxs|]. simpl. lia.
Qed.

Lemma transpose01_wf x : tensor_wf x → tensor_wf (transpose01 x).
Proof.
  intros [Hl Hr]. unfold transpose01. rewrite <- Hl. apply columns_wf.
  eapply Forall_impl; [exact Hr|]. simpl. lia.
Qed.

Lemma tget_transpose01 x i j :
  tensor_wf x → (i < dim1 x)%nat → tget (transpose01 x) i j = tget x j i.
Proof.
  intros [Hl Hr] Hi. unfold tget, transpose01. simpl. apply columns_get; [|done].
  eapply Forall_impl; [exact Hr|]. simpl. lia.
Qed.

Lemma torch_stack_dim1_uniform (ts : list (list A)) (L : nat) :
  ts ≠ [] → Forall (fun t => length t = L) ts →
  torch_stack_dim1 ts = Ok (Tensor2 L (length ts) (columns L ts)).
Proof.
  intros Hne Hall. destruct ts as [|t0 ts']; [done|]. unfold torch_stack_dim1.
  pose proof (Forall_inv Hall) as H0. simpl in H0. subst L.
  rewrite (proj2 (forallb_forall _ _)); [done|].
  intros t Ht. apply Nat.eqb_eq.
  rewrite Forall_forall in Hall. apply Hall. by apply list_elem_of_In.
Qed.

Lemma torch_stack_dim1_nil : torch_stack_dim1 (@nil (list A)) = Raise RuntimeError.
Proof. reflexivity. Qed.

End TensorFacts.

Lemma tmap_wf {A B} (f : A → B) (x : tensor2 A) : tensor_wf x → tensor_wf (tmap f x).
Proof.
  intros [Hl Hr]. split; simpl; [by rewrite length_fmap|].
  apply Forall_fmap. eapply Forall_impl; [exact Hr|]. intros r Hlen. simpl.
  by rewrite length_fmap.
Qed.

Lemma tget_tmap {A B} (f : A → B) (x : tensor2 A) i j :
  tget (tmap f x) i j = f <$> tget x i j.
Proof.
  unfold tget, tmap. simpl. rewrite list_lookup_fmap.
  destruct (rows x !! i) as [r|]; simpl; [|done]. by rewrite list_lookup_fmap.
Qed.

(** * The batch collator *)

Section CollatorFacts.

Lemma length_pad_one T pad s : length (pad_one T pad s) = T.
Proof.
  unfold pad_one. destruct (Nat.ltb_spec (length s) T).
  - rewrite length_app, length_replicate. lia.
  - rewrite length_take. lia.
Qed.

(** Right padding, or truncation: position [t] of the result is position
    [t] of the sequence, or the padding value beyond its end. *)
Lemma lookup_pad_one T pad s t :
  (t < T)%nat → pad_one T pad s !! t = Some (default pad (s !! t)).
Proof.
  intros Ht. unfold pad_one. destruct (Nat.ltb_spec (length s) T).
  - destruct (decide (t < length s)%nat).
    + rewrite lookup_app_l by done.
      by destruct (lookup_lt_is_Some_2 s t) as [a ->].
    + rewrite lookup_app_r by lia. rewrite lookup_replicate_2 by lia.
      by rewrite (lookup_ge_None_2 s t) by lia.
  - rewrite lookup_take_lt by done.
    by destruct (lookup_lt_is_Some_2 s t) as [a ->]; [lia|].
Qed.

Lemma pad_one_id T pad s : length s = T → pad_one T pad s = s.
Proof.
  intros <-. unfold pad_one. rewrite Nat.ltb_irrefl. by apply take_ge.
Qed.

Lemma py_max_max_list (l : list nat) : l ≠ [] → py_max l = Ok (max_list l).
Proof.
  destruct l as [|x r]; [done|]. intros _. unfold py_max. f_equal.
  induction r as [|y r IH]; simpl; [lia|]. simpl in IH. lia.
Qed.

Lemma pad_sequence_spec sequences m pad :
  sequences ≠ [] → m ≠ MaxSame →
  let T := target_len m sequences in
  pad_sequence sequences false m pad
    = Ok (Tensor2 T (length sequences) (columns T (pad_one T pad <$> sequences))).
Proof.
  intros Hne Hm T. unfold pad_sequence.
  assert (Hlen : match m with
                 | MaxNone => py_max (length <$> sequences)
                 | MaxInt n => Ok n
                 | MaxSame => match sequences with
                              | [] => Raise RuntimeError
                              | _ => Raise TypeError
                              end
                 end = Ok T).
  { subst T. destruct m; [|done|done]. apply py_max_max_list.
    by destruct sequences. }
  rewrite Hlen. simpl.
  rewrite (torch_stack_dim1_uniform _ T).
  - simpl. by rewrite length_fmap.
  - by destruct sequences.
  - apply Forall_fmap, Forall_forall. intros s _. apply length_pad_one.
Qed.

Lemma padded_wf T pad (sequences : list (list Z)) :
  tensor_wf (Tensor2 T (length sequences) (columns T (pad_one T pad <$> sequences))).
Proof.
  rewrite <- (length_fmap (pad_one T pad) sequences). apply columns_wf.
  apply Forall_fmap, Forall_forall. intros s _. simpl. by rewrite length_pad_one.
Qed.

Lemma padded_get T pad (sequences : list (list Z)) t b s :
  (t < T)%nat → sequences !! b = Some s →
  tget (Tensor2 T (length sequences) (columns T (pad_one T pad <$> sequences))) t b
  = Some (default pad (s !! t)).
Proof.
  intros Ht Hs. unfold tget. simpl. rewrite columns_get; [|  |done].
  - rewrite list_lookup_fmap, Hs. simpl. by apply lookup_pad_one.
  - apply Forall_fmap, Forall_forall. intros r _. simpl. by rewrite length_pad_one.
Qed.

End CollatorFacts.

(** C3.  For a non-empty batch, and [max_sen_len] [None] or an [int],
    [generate_batch] returns a token tensor of shape [[T, B]], a label
    tensor of shape [[T', B]] and a mask of shape [[B, T]], where [B] is the
    batch size and [T] ([T']) is the fixed length if given, else the maximum
    token (label) length in the batch; the two are the same length when each
    sample has as many labels as tokens.  Column [b] is sample [b] padded on
    the right with [PAD_IDX], or truncated, and [mask[b][t]] is true exactly
    when [tokens[t][b]] is [PAD_IDX]. *)
Theorem generate_batch_shape (d : LoadDNADataset) (data_batch : list (list Z * list Z)) :
  data_batch ≠ [] →
  max_sen_len d ≠ MaxSame →
  let B := length data_batch in
  let T := target_len (max_sen_len d) (fst <$> data_batch) in
  let T' := target_len (max_sen_len d) (snd <$> data_batch) in
  ∃ tokens mask labels,
    generate_batch d data_batch = Ok (tokens, mask, labels) ∧
    (tensor_wf tokens ∧ dim0 tokens = T ∧ dim1 tokens = B) ∧
    (tensor_wf labels ∧ dim0 labels = T' ∧ dim1 labels = B) ∧
    (tensor_wf mask ∧ dim0 mask = B ∧ dim1 mask = T) ∧
    (Forall (fun s => length s.1 = length s.2) data_batch → T' = T) ∧
    (∀ b token_ids mlm_label, data_batch !! b = Some (token_ids, mlm_label) →
       (∀ t, (t < T)%nat →
          tget tokens t b = Some (default (PAD_IDX d) (token_ids !! t))) ∧
       (∀ t, (t < T')%nat →
          tget labels t b = Some (default (PAD_IDX d) (mlm_label !! t)))) ∧
    (∀ b t, (b < B)%nat → (t < T)%nat →
       ∃ x, tget tokens t b = Some x ∧ tget mask b t = Some (bool_decide (x = PAD_IDX d))).
Proof.
  intros Hne Hm B T T'. unfold generate_batch.
  assert (Hne1 : fst <$> data_batch ≠ []) by (by destruct data_batch).
  assert (Hne2 : snd <$> data_batch ≠ []) by (by destruct data_batch).
  rewrite (pad_sequence_spec _ _ (PAD_IDX d) Hne1 Hm). fold T. simpl.
  rewrite (pad_sequence_spec _ _ (PAD_IDX d) Hne2 Hm). fold T'. simpl.
  set (tokens := Tensor2 T _ _). set (labels := Tensor2 T' _ _).
  assert (Hwt : tensor_wf tokens) by apply padded_wf.
  assert (Hwl : tensor_wf labels) by apply padded_wf.
  assert (Hget : ∀ b t, (b < B)%nat → (t < T)%nat → ∃ x, tget tokens t b = Some x).
  { intros b t Hb Ht.
    destruct (lookup_lt_is_Some_2 (fst <$> data_batch) b) as [s Hs].
    { by rewrite length_fmap. }
    eexists. by apply padded_get. }
  assert (HB1 : dim1 tokens = B) by (subst tokens B; simpl; by rewrite length_fmap).
  assert (HB2 : dim1 labels = B) by (subst labels B; simpl; by rewrite length_fmap).
  eexists _, _, _. split; [reflexivity|].
  split; [split; [exact Hwt|split; [reflexivity|exact HB1]]|].
  split; [split; [exact Hwl|split; [reflexivity|exact HB2]]|].
  split; [|split; [|split]].
  - split; [apply transpose01_wf, tmap_wf, Hwt|]. split; [exact HB1|reflexivity].
  - intros Hal. subst T T'. unfold target_len. destruct (max_sen_len d); try done.
    all: f_equal; rewrite <- !list_fmap_compose; apply list_fmap_ext;
      intros i s Hs; simpl; symmetry;
      eapply (proj1 (Forall_lookup _ _) Hal); exact Hs.
  - intros b token_ids mlm_label Hb. split; intros t Ht.
    + apply padded_get; [done|]. by rewrite list_lookup_fmap, Hb.
    + apply padded_get; [done|]. by rewrite list_lookup_fmap, Hb.
  - intros b t Hb Ht. destruct (Hget b t Hb Ht) as [x Hx]. exists x. split; [done|].
    rewrite tget_transpose01.
    + by rewrite tget_tmap, Hx.
    + by apply tmap_wf.
    + simpl. by rewrite length_fmap.
Qed.

(** Sequences of lengths 4 and 6 with no fixed length are padded to 6: the
    token tensor has shape [[6, 2]]. *)
Lemma generate_batch_shape_witness :
  ∃ tokens mask labels,
    generate_batch dna_dataset dna_batch = Ok (tokens, mask, labels) ∧
    dim0 tokens = 6%nat ∧ dim1 tokens = 2%nat ∧
    tget tokens 5 0 = Some 0 ∧ tget mask 0 5 = Some true.
Proof.
  destruct (generate_batch_shape dna_dataset dna_batch)
    as (tokens & mask & labels & Hrun & (_ & H0 & H1) & _ & _ & _ & Hcol & Hmask).
  - discriminate.
  - discriminate.
  - exists tokens, mask, labels. split; [exact Hrun|].
    split; [exact H0|]. split; [exact H1|].
    destruct (Hcol 0%nat [2; 5; 6; 3] [0; 5; 0; 0] eq_refl) as [Htok _].
    pose proof (Htok 5%nat ltac:(vm_compute; lia)) as H5.
    split; [exact H5|].
    destruct (Hmask 0%nat 5%nat ltac:(vm_compute; lia) ltac:(vm_compute; lia))
      as (x & Hx & Hm).
    rewrite H5 in Hx. injection Hx as <-. exact Hm.
Defined.

(** C8.  With [max_sen_len = T] and a batch whose token and label
    sequences all have length [T], [generate_batch] is the stacking of the
    sequences as they are: every value of every sample is at its place in
    the result. *)
Theorem generate_batch_idempotent (d : LoadDNADataset)
    (data_batch : list (list Z * list Z)) (T : nat) :
  max_sen_len d = MaxInt T →
  Forall (fun s => length s.1 = T ∧ length s.2 = T) data_batch →
  generate_batch d data_batch
    = (tokens ← torch_stack_dim1 (fst <$> data_batch);
       labels ← torch_stack_dim1 (snd <$> data_batch);
       mret (tokens,
             transpose01 (tmap (fun x => bool_decide (x = PAD_IDX d)) tokens),
             labels)) ∧
  (data_batch ≠ [] →
   ∃ tokens mask labels,
     generate_batch d data_batch = Ok (tokens, mask, labels) ∧
     torch_stack_dim1 (fst <$> data_batch) = Ok tokens ∧
     torch_stack_dim1 (snd <$> data_batch) = Ok labels ∧
     ∀ b token_ids mlm_label t, data_batch !! b = Some (token_ids, mlm_label) →
       (t < T)%nat →
       tget tokens t b = token_ids !! t ∧ tget labels t b = mlm_label !! t).
Proof.
  intros Hm Hall.
  assert (Hid : ∀ (f : list Z * list Z → list Z),
            Forall (fun s => length (f s) = T) data_batch →
            pad_one T (PAD_IDX d) <$> (f <$> data_batch) = f <$> data_batch).
  { intros f Hf. rewrite <- (list_fmap_id (f <$> data_batch)) at 2.
    apply list_fmap_ext. intros i s Hs. simpl. apply pad_one_id.
    apply list_lookup_fmap_Some in Hs as (s' & -> & Hs').
    eapply (proj1 (Forall_lookup _ _) Hf); exact Hs'. }
  assert (H1 : Forall (fun s : list Z * list Z => length s.1 = T) data_batch).
  { eapply Forall_impl; [exact Hall|]. by intros s [? ?]. }
  assert (H2 : Forall (fun s : list Z * list Z => length s.2 = T) data_batch).
  { eapply Forall_impl; [exact Hall|]. by intros s [? ?]. }
  assert (Heq : generate_batch d data_batch
    = (tokens ← torch_stack_dim1 (fst <$> data_batch);
       labels ← torch_stack_dim1 (snd <$> data_batch);
       mret (tokens,
             transpose01 (tmap (fun x => bool_decide (x = PAD_IDX d)) tokens),
             labels))).
  { unfold generate_batch, pad_sequence. rewrite Hm. simpl.
    rewrite (Hid fst H1), (Hid snd H2).
    destruct (torch_stack_dim1 (fst <$> data_batch)) as [tokens|e]; simpl; [|done].
    by destruct (torch_stack_dim1 (snd <$> data_batch)) as [labels|e]. }
  split; [exact Heq|]. intros Hne. rewrite Heq.
  assert (Hne1 : fst <$> data_batch ≠ []) by (by destruct data_batch).
  assert (Hne2 : snd <$> data_batch ≠ []) by (by destruct data_batch).
  rewrite (torch_stack_dim1_uniform (fst <$> data_batch) T Hne1)
    by (by apply Forall_fmap).
  rewrite (torch_stack_dim1_uniform (snd <$> data_batch) T Hne2)
    by (by apply Forall_fmap).
  simpl. eexists _, _, _. split; [reflexivity|]. split; [done|]. split; [done|].
  intros b token_ids mlm_label t Hb Ht. unfold tget. simpl.
  rewrite !columns_get; [| |done| |done].
  - rewrite !list_lookup_fmap, Hb. done.
  - apply Forall_fmap. eapply Forall_impl; [exact H2|]. simpl. lia.
  - apply Forall_fmap. eapply Forall_impl; [exact H1|]. simpl. lia.
Qed.

Lemma generate_batch_idempotent_witness :
  ∃ tokens mask labels,
    generate_batch (with_max_sen_len dna_dataset (MaxInt 6))
      [(dna_sample, [0; 0; 6; 0; 0; 0])] = Ok (tokens, mask, labels) ∧
    tget tokens 2 0 = Some 6.
Proof.
  destruct (generate_batch_idempotent (with_max_sen_len dna_dataset (MaxInt 6))
              [(dna_sample, [0; 0; 6; 0; 0; 0])] 6) as [_ H].
  - reflexivity.
  - repeat constructor.
  - destruct H as (tokens & mask & labels & Hrun & _ & _ & Hget); [discriminate|].
    exists tokens, mask, labels. split; [exact Hrun|].
    apply (Hget 0%nat dna_sample [0; 0; 6; 0; 0; 0] 2%nat eq_refl). lia.
Defined.

(** * Random replacement and the padding mask *)

Section ReplacementFacts.

Lemma random_random_eq st :
  random_random st
  = Ok (binary_normalize prec emax (Z.of_N (tape st (cursor st) mod 2 ^ 53)) (-53) false,
        {| tape := tape st; cursor := S (cursor st) |}).
Proof. reflexivity. Qed.

(** [randint] returns the raw value it reads when that is in range. *)
Lemma randint_reaches (d : LoadDNADataset) (v : Z) (l : list N) (c : nat) :
  0 ≤ v < vocab_size d →
  l !! c = Some (Z.to_N v) →
  random_randint 0 (vocab_size d - 1) {| tape := fun i => nth i l 0%N; cursor := c |}
  = Ok (v, {| tape := fun i => nth i l 0%N; cursor := S c |}).
Proof.
  intros Hv Hl. unfold random_randint, randbelow, next_raw.
  destruct (vocab_size d - 1 <? 0) eqn:E; [apply Z.ltb_lt in E; lia|].
  unfold_monad. cbn [tape cursor].
  rewrite (nth_lookup_Some _ _ _ _ Hl).
  do 2 f_equal. rewrite Z2N.id by lia. rewrite Z.mod_small by lia. lia.
Qed.

(** With the default rates, two largest draws lead to the random
    replacement. *)
Lemma corrupt_reaches (tok v : Z) :
  0 ≤ v < vocab_size dna_dataset →
  ∃ st', corrupt_token dna_dataset tok
           (tape_of [2 ^ 53 - 1; 2 ^ 53 - 1; Z.to_N v]%N) = Ok (v, st').
Proof.
  intros Hv. unfold corrupt_token, tape_of.
  assert (E1 : float_lt hi_draw (masked_token_rate dna_dataset) = false)
    by (vm_compute; reflexivity).
  assert (E2 : float_lt (masked_token_unchanged_rate dna_dataset) hi_draw = true)
    by (vm_compute; reflexivity).
  unfold mbind at 1. unfold M_bind. rewrite random_random_eq. cbn [tape cursor].
  change (nth 0 _ _) with (2 ^ 53 - 1)%N. fold hi_draw. rewrite E1.
  unfold mbind at 1. unfold M_bind. rewrite random_random_eq. cbn [tape cursor].
  change (nth 1 _ _) with (2 ^ 53 - 1)%N. fold hi_draw. rewrite E2.
  eexists. by apply randint_reaches.
Qed.

End ReplacementFacts.

(** C9.  [randint] reaches every value of [[0, vocab_size)], the reserved
    IDs included, and so does the corruption of a token under the default
    rates.  On [[CLS] A C G T [SEP]] some draws make the shuffle put
    position 1 first, [replace_masked_tokens] commit it and replace its
    token [A] by 0, the padding value, and [get_masked_sample] return that
    sample; the collated batch has no padding (its length is the sample's)
    and the padding mask is true at that position. *)
Theorem random_replacement_reaches_PAD :
  (∀ d v, 0 ≤ v < vocab_size d →
     ∃ st st', random_randint 0 (vocab_size d - 1) st = Ok (v, st')) ∧
  (∀ tok v, 0 ≤ v < vocab_size dna_dataset →
     ∃ st st', corrupt_token dna_dataset tok st = Ok (v, st')) ∧
  ∃ st st' corrupted labels tokens mask lab,
    get_masked_sample_trace dna_dataset dna_sample st
      = Ok (([1%nat], (corrupted, labels)), st') ∧
    dna_sample !! 1%nat = Some 5 ∧
    corrupted !! 1%nat = Some (PAD_IDX dna_dataset) ∧
    generate_batch dna_dataset [(corrupted, labels)] = Ok (tokens, mask, lab) ∧
    dim0 tokens = length dna_sample ∧
    tget tokens 1 0 = Some (PAD_IDX dna_dataset) ∧
    tget mask 0 1 = Some true ∧
    get_masked_sample dna_dataset dna_sample st = Ok ((corrupted, labels), st') ∧
    corrupted = [2; 0; 6; 7; 8; 3] ∧
    labels = [0; 5; 0; 0; 0; 0] ∧
    ∃ shuffled st1,
      random_shuffle (candidates_from dna_dataset 0 dna_sample) st = Ok (shuffled, st1) ∧
      num_mlm_preds_of dna_dataset (length dna_sample) = Ok 1 ∧
      replace_masked_tokens dna_dataset dna_sample shuffled 1 st1
        = Ok ((corrupted, labels), st').
Proof.
  split; [|split].
  - intros d v Hv. eexists _, _.
    by apply (randint_reaches d v [Z.to_N v] 0).
  - intros tok v Hv. destruct (corrupt_reaches tok v Hv) as [st' H]. eauto.
  - exists (tape_of [1; 2; 3; 2 ^ 53 - 1; 2 ^ 53 - 1; 9]%N).
    eexists _, _, _, _, _, _.
    split; [vm_compute; reflexivity|].
    split; [reflexivity|]. split; [reflexivity|].
    split; [vm_compute; reflexivity|].
    split; [reflexivity|]. split; [reflexivity|]. split; [reflexivity|].
    split; [vm_compute; reflexivity|].
    split; [reflexivity|]. split; [reflexivity|].
    eexists _, _. split; [vm_compute; reflexivity|].
    split; [vm_compute; reflexivity|]. vm_compute; reflexivity.
Qed.

(** * accuracy *)

Section AccuracyFacts.

Lemma length_flatten {A} (x : tensor2 A) :
  tensor_wf x → length (flatten x) = (dim0 x * dim1 x)%nat.
Proof.
  intros [Hl Hr]. unfold flatten. rewrite length_join.
  rewrite (sum_list_fmap_same (dim1 x)) by done. by rewrite Hl.
Qed.

Lemma flatten_tmap {A B} (f : A → B) (x : tensor2 A) :
  length (flatten (tmap f x)) = length (flatten x).
Proof.
  unfold flatten, tmap. simpl. rewrite !length_join. f_equal.
  rewrite <- list_fmap_compose. apply list_fmap_ext. intros i r _. simpl.
  by rewrite length_fmap.
Qed.

(** The values of the flattened transpose are values of the tensor. *)
Lemma elem_of_flatten_transpose {A} (x : tensor2 A) (v : A) :
  v ∈ flatten (transpose01 x) → ∃ i j, tget x i j = Some v.
Proof.
  unfold flatten, transpose01. simpl.
  intros (col & Hv & Hcol)%list_elem_of_join.
  apply list_elem_of_lookup in Hcol as [t Ht].
  assert (Hlt : (t < dim1 x)%nat).
  { apply lookup_lt_Some in Ht. by rewrite length_columns in Ht. }
  rewrite columns_lookup in Ht by done. injection Ht as <-.
  apply list_elem_of_omap in Hv as (r & Hr & Hrt).
  apply list_elem_of_lookup in Hr as [i Hi].
  exists i, t. unfold tget. by rewrite Hi.
Qed.

Lemma count_true_elem (l : list bool) : count_true l ≠ 0 → true ∈ l.
Proof.
  unfold count_true. destruct (filter _ l) as [|b k] eqn:E; [done|]. intros _.
  assert (Hb : b ∈ filter (fun b => b = true) l) by (rewrite E; by left).
  by apply list_elem_of_filter in Hb as [-> Hb].
Qed.

Lemma count_true_zero (l : list bool) :
  Forall (fun b => b = false) l → count_true l = 0.
Proof.
  intros Hall. unfold count_true.
  destruct (filter _ l) as [|b k] eqn:E; [done|]. exfalso.
  assert (Hb : b ∈ filter (fun b => b = true) l) by (rewrite E; by left).
  apply list_elem_of_filter in Hb as [-> Hb].
  rewrite Forall_forall in Hall. by specialize (Hall _ Hb).
Qed.

Lemma broadcast2_same_length {A B C} (f : A → B → C) x y :
  length x = length y → broadcast2 f x y = Ok (zip_with f x y).
Proof. intros H. unfold broadcast2. by rewrite H, Nat.eqb_refl. Qed.

End AccuracyFacts.

(** C10.  [accuracy] returns a value only when some label differs from
    [PAD_IDX]; for logits and labels of matching shapes where every label is
    [PAD_IDX] it raises [ZeroDivisionError]. *)
Theorem accuracy_division (score : Type) (score_ltb : score → score → bool)
    (mlm_logits : tensor3 score) (mlm_labels : tensor2 Z) (PAD : Z) :
  (∀ r, accuracy score score_ltb mlm_logits mlm_labels PAD = Ok r →
     r.2 ≠ 0 ∧ ∃ i j x, tget mlm_labels i j = Some x ∧ x ≠ PAD) ∧
  (tensor3_wf mlm_logits → tensor_wf mlm_labels →
   sdim0 mlm_logits = dim0 mlm_labels → sdim1 mlm_logits = dim1 mlm_labels →
   sdim2 mlm_logits ≠ 0%nat →
   Forall (Forall (fun x => x = PAD)) (rows mlm_labels) →
   accuracy score score_ltb mlm_logits mlm_labels PAD = Raise ZeroDivisionError).
Proof.
  split.
  - intros r. unfold accuracy.
    destruct (transpose_argmax _ _ _) as [p|e]; simpl; [|done].
    destruct (broadcast2 _ _ _) as [acc|e]; simpl; [|done].
    destruct (broadcast2 andb _ _) as [acc'|e]; simpl; [|done].
    destruct (float_of_int (count_true acc')) as [c|e]; simpl; [|done].
    destruct (float_of_int (count_true _)) as [t|e]; simpl; [|done].
    destruct (Z.eqb_spec (count_true
      ((fun t => negb (bool_decide (t = PAD))) <$> flatten (transpose01 mlm_labels))) 0)
      as [|Hne]; [done|].
    intros [= <-]. simpl. split; [done|].
    apply count_true_elem in Hne.
    apply list_elem_of_fmap in Hne as (x & Hx & Hin).
    apply elem_of_flatten_transpose in Hin as (i & j & Hget).
    exists i, j, x. split; [done|]. intros ->.
    by rewrite bool_decide_eq_true_2 in Hx.
  - intros [Hl3 Hr3] Hwf H0 H1 Hv Hpad. unfold accuracy, transpose_argmax.
    destruct (Nat.eqb_spec (sdim2 mlm_logits) 0) as [|_]; [done|]. simpl.
    set (mlm_true := flatten (transpose01 mlm_labels)).
    set (p := Tensor2 _ _ _).
    assert (Hlen : length (flatten p) = length mlm_true).
    { subst p mlm_true.
      change (Tensor2 (sdim1 mlm_logits) (sdim0 mlm_logits) _)
        with (tmap (fun c => Z.of_nat (argmax_list score score_ltb c))
                (Tensor2 (sdim1 mlm_logits) (sdim0 mlm_logits)
                   (columns (sdim1 mlm_logits) (cells mlm_logits)))).
      rewrite flatten_tmap, !length_flatten.
      - simpl. lia.
      - by apply transpose01_wf.
      - rewrite <- Hl3. apply columns_wf.
        eapply Forall_impl; [exact Hr3|]. simpl. lia. }
    rewrite (broadcast2_same_length _ _ _ Hlen). simpl.
    set (mask := _ <$> mlm_true).
    assert (Hmask : Forall (fun b => b = false) mask).
    { subst mask. apply Forall_fmap, Forall_forall. intros x Hx. simpl.
      apply elem_of_flatten_transpose in Hx as (i & j & Hget).
      unfold tget in Hget. destruct (rows mlm_labels !! i) as [r|] eqn:Hr; [|done].
      simpl in Hget.
      rewrite Forall_lookup in Hpad. specialize (Hpad _ _ Hr).
      rewrite Forall_lookup in Hpad. rewrite (Hpad _ _ Hget).
      by rewrite bool_decide_eq_true_2. }
    rewrite broadcast2_same_length.
    2:{ subst mask. rewrite length_zip_with, length_fmap. lia. }
    simpl.
    rewrite (count_true_zero (zip_with andb _ mask)).
    2:{ apply Forall_forall. intros b (x & y & -> & _ & Hy)%elem_of_zip_with.
        rewrite Forall_forall in Hmask. rewrite (Hmask _ Hy). by destruct x. }
    by rewrite (count_true_zero mask Hmask).
Qed.

(** A batch of four positions whose labels are all the padding value. *)
Lemma accuracy_division_witness :
  accuracy Z Z.ltb
    (Tensor3 4 1 3 [[[1; 2; 3]]; [[1; 5; 3]]; [[1; 2; 3]]; [[7; 2; 3]]])
    (Tensor2 4 1 [[0]; [0]; [0]; [0]]) 0
  = Raise ZeroDivisionError.
Proof.
  apply (accuracy_division Z Z.ltb).
  - split; [reflexivity|]. by repeat constructor.
  - split; [reflexivity|]. by repeat constructor.
  - reflexivity.
  - reflexivity.
  - discriminate.
  - by repeat constructor.
Defined.

(** * The cache file name *)

Section StringFacts.

Lemma string_app_cons c (a b : string) : String c a +:+ b = String c (a +:+ b).
Proof. reflexivity. Qed.

Lemma string_app_nil (b : string) : "" +:+ b = b.
Proof. reflexivity. Qed.

Lemma string_app_assoc (a b c : string) : (a +:+ b) +:+ c = a +:+ (b +:+ c).
Proof.
  induction a as [|x a IH]; [done|]. rewrite !string_app_cons. by rewrite IH.
Qed.

Lemma string_length_app (a b : string) :
  String.length (a +:+ b) = (String.length a + String.length b)%nat.
Proof.
  induction a as [|x a IH]; [done|]. rewrite string_app_cons. simpl. by rewrite IH.
Qed.

Lemma string_app_inv_tail (a b t : string) : a +:+ t = b +:+ t → a = b.
Proof.
  revert b. induction a as [|x a IH]; intros [|y b] H;
    rewrite ?string_app_cons, ?string_app_nil in H.
  - done.
  - apply (f_equal String.length) in H. simpl in H. rewrite string_length_app in H. lia.
  - apply (f_equal String.length) in H. simpl in H. rewrite string_length_app in H. lia.
  - injection H as -> H. f_equal. by apply IH.
Qed.

Lemma contains_char_app c (a b : string) :
  contains_char c (a +:+ b) = contains_char c a || contains_char c b.
Proof.
  induction a as [|x a IH]; [done|]. rewrite string_app_cons. simpl.
  rewrite IH. by rewrite orb_assoc.
Qed.

Lemma plain_app (a b : string) : plain a → plain b → plain (a +:+ b).
Proof. unfold plain. intros Ha Hb. by rewrite contains_char_app, Ha, Hb. Qed.

(** The last underscore of a string splits it in one way. *)
Lemma split_last_underscore (a b x y : string) :
  plain x → plain y →
  a +:+ "_" +:+ x = b +:+ "_" +:+ y → a = b ∧ x = y.
Proof.
  unfold plain. intros Hx Hy. revert b.
  induction a as [|c a IH]; intros [|c' b] H;
    rewrite ?string_app_cons, ?string_app_nil in H.
  - injection H as H. done.
  - injection H as <- H. rewrite H in Hx.
    rewrite contains_char_app in Hx. simpl in Hx. by rewrite orb_true_r in Hx.
  - injection H as -> H. rewrite <- H in Hy.
    rewrite contains_char_app in Hy. simpl in Hy. by rewrite orb_true_r in Hy.
  - injection H as -> H. destruct (IH b H) as [-> ->]. done.
Qed.

Lemma join_segments_inj : ∀ (s1 s2 : list string) (a b : string),
  length s1 = length s2 → Forall plain s1 → Forall plain s2 →
  join_segments a s1 = join_segments b s2 → a = b ∧ s1 = s2.
Proof.
  induction s1 as [|x s1 IH]; intros [|y s2] a b Hlen H1 H2 H; simpl in *; try done.
  apply Forall_cons in H1 as [Hx H1]. apply Forall_cons in H2 as [Hy H2].
  destruct (IH s2 _ _ ltac:(lia) H1 H2 H) as [Hab ->].
  destruct (split_last_underscore a b x y Hx Hy Hab) as [-> ->]. done.
Qed.

Lemma plain_uint (u : Decimal.uint) : plain (NilEmpty.string_of_uint u).
Proof. unfold plain. induction u; simpl; done. Qed.

Lemma plain_str_int (z : Z) : plain (str_int z).
Proof.
  unfold str_int, NilEmpty.string_of_int.
  destruct (Z.to_int z); [apply plain_uint|].
  unfold plain. simpl. apply plain_uint.
Qed.

Lemma str_int_parse (z : Z) : NilEmpty.int_of_string (str_int z) = Some (Z.to_int z).
Proof. apply NilEmpty.isi. Qed.

Lemma str_int_inj (z1 z2 : Z) : str_int z1 = str_int z2 → z1 = z2.
Proof.
  intros H. apply (f_equal NilEmpty.int_of_string) in H.
  rewrite !str_int_parse in H. injection H as H.
  rewrite <- (DecimalZ.of_to z1), <- (DecimalZ.of_to z2). by rewrite H.
Qed.

Lemma plain_str_max_len m : plain (str_max_len m).
Proof. destruct m; [done|apply plain_str_int|done]. Qed.

Lemma str_max_len_inj m1 m2 : str_max_len m1 = str_max_len m2 → m1 = m2.
Proof.
  destruct m1 as [|n1|], m2 as [|n2|]; simpl; intros H; try done.
  - apply (f_equal NilEmpty.int_of_string) in H. rewrite str_int_parse in H. done.
  - apply (f_equal NilEmpty.int_of_string) in H. rewrite str_int_parse in H. done.
  - apply str_int_inj in H. f_equal. lia.
  - apply (f_equal NilEmpty.int_of_string) in H. rewrite str_int_parse in H. done.
  - apply (f_equal NilEmpty.int_of_string) in H. rewrite str_int_parse in H. done.
Qed.

Lemma split_name_inj s1 s2 : split_name s1 = split_name s2 → s1 = s2.
Proof. by destruct s1, s2. Qed.

Lemma plain_split_name s : plain (split_name s).
Proof. by destruct s. Qed.

End StringFacts.

Section KeyFacts.
Variable str_float : spec_float → string.

Lemma cache_key_segments d s p :
  cache_key str_float d s p
  = join_segments (before_first_dot p) (key_segments str_float d s).
Proof.
  unfold cache_key, cache_data_path, postfix_of, key_segments. cbn [join_segments].
  repeat (rewrite string_app_assoc || rewrite string_app_cons || rewrite string_app_nil).
  reflexivity.
Qed.

Lemma key_segments_plain d s :
  rates_plain str_float d → Forall plain (key_segments str_float d s).
Proof.
  intros (H1 & H2 & H3). unfold key_segments.
  repeat apply Forall_cons_2; try apply Forall_nil_2.
  - apply plain_split_name.
  - apply plain_app; [done|apply plain_str_max_len].
  - apply plain_app; [done|apply plain_str_int].
  - by apply plain_app.
  - by apply plain_app.
  - apply plain_app; [done|]. by apply plain_app.
Qed.

Lemma cache_key_of_fields d s p :
  cache_key str_float d s p = key_of_fields (key_fields str_float d s p).
Proof. reflexivity. Qed.

End KeyFacts.

(** C6, as the code has it.  When the renderings of the three rates have
    no underscore from their third character on, two build configurations
    derive the same cache file exactly when they agree on the part of the
    path before its first dot, the split, [max_sen_len], [random_state] and
    the three renderings from their third character on. *)
Theorem cache_key_fields (str_float : spec_float → string)
    (d1 d2 : LoadDNADataset) (s1 s2 : split) (p1 p2 : string) :
  rates_plain str_float d1 → rates_plain str_float d2 →
  (cache_key str_float d1 s1 p1 = cache_key str_float d2 s2 p2
   ↔ key_fields str_float d1 s1 p1 = key_fields str_float d2 s2 p2).
Proof.
  intros Hp1 Hp2. split.
  - rewrite !cache_key_segments. intros H.
    apply join_segments_inj in H as [Hstem Hseg];
      [|done|by apply key_segments_plain|by apply key_segments_plain].
    unfold key_segments in Hseg.
    injection Hseg as Hs Hml Hrs Hmr Hmtr Hmtur.
    apply split_name_inj in Hs. apply str_max_len_inj in Hml.
    apply str_int_inj in Hrs.
    rewrite !string_app_nil in Hmtur. apply string_app_inv_tail in Hmtur.
    unfold key_fields. rewrite Hstem, Hs, Hml, Hrs.
    apply (f_equal2 pair); [|exact Hmtur].
    apply (f_equal2 pair); [|exact Hmtr].
    apply (f_equal2 pair); [reflexivity|exact Hmr].
  - intros H. rewrite !cache_key_of_fields. by rewrite H.
Qed.

(** The two directions on the default configuration: another seed gives
    another file, another extension of the path gives the same file. *)
Lemma cache_key_fields_witness :
  (cache_key str_default_rates dna_dataset Train "data/train.csv"
   = cache_key str_default_rates dna_dataset Train "data/train.tsv") ∧
  (cache_key str_default_rates dna_dataset Train "data/train.csv"
   = cache_key str_default_rates dna_dataset Val "data/train.csv" → Train = Val).
Proof.
  assert (Hp : rates_plain str_default_rates dna_dataset).
  { split; [reflexivity|]. split; reflexivity. }
  split.
  - apply (cache_key_fields str_default_rates dna_dataset dna_dataset Train Train
             "data/train.csv" "data/train.tsv" Hp Hp). reflexivity.
  - intros H.
    apply (cache_key_fields str_default_rates dna_dataset dna_dataset Train Val
             "data/train.csv" "data/train.csv" Hp Hp) in H.
    unfold key_fields in H. congruence.
Defined.

(** C6 as stated fails.  Two source paths that differ after their first
    dot, two paths that start with a dot, and two instances that differ in
    [inital_site] derive the same cache file; the second build then loads
    what the first one stored. *)
Lemma cache_key_collisions :
  ("data/train.csv" ≠ "data/train.tsv" ∧
   ∀ sf d s, cache_key sf d s "data/train.csv" = cache_key sf d s "data/train.tsv") ∧
  ("./train.csv" ≠ "./other.csv" ∧
   ∀ sf d s, cache_key sf d s "./train.csv" = cache_key sf d s "./other.csv") ∧
  (inital_site dna_dataset ≠ inital_site (with_inital_site dna_dataset 512) ∧
   ∀ sf s p, cache_key sf dna_dataset s p
             = cache_key sf (with_inital_site dna_dataset 512) s p) ∧
  (∀ (D : Type) (a b : D) (postfix : string),
     (cache b (cache a ∅ "data/train.csv" postfix).2 "data/train.tsv" postfix).1 = a).
Proof.
  split; [split; [discriminate|reflexivity]|].
  split; [split; [discriminate|reflexivity]|].
  split; [split; [discriminate|reflexivity]|].
  intros D a b postfix. unfold cache.
  change (cache_data_path "data/train.tsv" postfix)
    with (cache_data_path "data/train.csv" postfix).
  rewrite lookup_empty. simpl. by rewrite lookup_insert_eq.
Qed.

(** * Vocab: sizes, ranges and tokenization *)

Section VocabMore.

Lemma stoi_last_None (v : Vocab) (s : string) :
  stoi_last v → (stoi v !! s = None ↔ s ∉ itos v).
Proof.
  intros Hlast. split.
  - intros Hnone Hin. destruct (last_index_exists _ _ Hin) as [k Hk].
    apply Hlast in Hk. congruence.
  - intros Hnot. destruct (stoi v !! s) as [k|] eqn:E; [|done].
    apply Hlast in E as [E _]. exfalso. apply Hnot.
    apply list_elem_of_lookup. eauto.
Qed.

Lemma Vocab_add_size word v :
  stoi_last v → stoi_size v → stoi_size (Vocab_add (length (itos v)) word v).
Proof.
  intros Hlast [Hle Hiff]. unfold stoi_size, Vocab_add. simpl.
  set (w := strip_newline word).
  rewrite length_app. simpl.
  rewrite NoDup_app.
  destruct (stoi v !! w) as [k|] eqn:E.
  - rewrite map_size_insert_Some by done.
    split; [lia|]. split; [lia|]. intros (_ & Hnot & _). exfalso.
    assert (Hin : w ∈ itos v).
    { apply Hlast in E as [E _]. apply list_elem_of_lookup. eauto. }
    apply (Hnot w Hin). by left.
  - rewrite map_size_insert_None by done.
    apply stoi_last_None in E; [|done].
    split; [lia|]. split.
    + intros Hsz. split; [apply Hiff; lia|]. split; [|apply NoDup_singleton].
      intros x Hx ->%list_elem_of_singleton. done.
    + intros (Hnd & _ & _). apply Hiff in Hnd. lia.
Qed.

Lemma Vocab_load_size lines : ∀ v,
  stoi_last v → stoi_size v → stoi_size (Vocab_load (length (itos v)) lines v).
Proof.
  induction lines as [|word rest IH]; intros v Hlast Hsz; simpl; [done|].
  pose proof (IH _ (Vocab_add_last word v Hlast) (Vocab_add_size word v Hlast Hsz)) as H.
  simpl in H. rewrite length_app in H. simpl in H.
  by replace (length (itos v) + 1)%nat with (S (length (itos v))) in H by lia.
Qed.

Lemma lstrip_one_line s : one_line s → lstrip_newline s = s.
Proof.
  unfold one_line. destruct s as [|c s]; [done|]. simpl.
  destruct (Ascii.eqb c newline); [done|done].
Qed.

Lemma rstrip_line s : one_line s → rstrip_newline (line s) = s.
Proof.
  unfold one_line, line. induction s as [|c s IH]; [done|].
  rewrite string_app_cons. simpl.
  destruct (Ascii.eqb c newline) eqn:Ec; [done|]. simpl. intros Hs.
  rewrite (IH Hs). destruct s; [|done]. done.
Qed.

Lemma rstrip_one_line s : one_line s → rstrip_newline s = s.
Proof.
  unfold one_line. induction s as [|c s IH]; [done|]. simpl.
  destruct (Ascii.eqb c newline) eqn:Ec; [done|]. simpl. intros Hs.
  rewrite (IH Hs). by destruct s.
Qed.

Lemma strip_newline_line s : one_line s → strip_newline (line s) = s.
Proof.
  intros Hs. unfold strip_newline. destruct s as [|c s].
  - reflexivity.
  - assert (Hl : lstrip_newline (line (String c s)) = line (String c s)).
    { unfold line. rewrite string_app_cons. simpl.
      unfold one_line in Hs. simpl in Hs.
      by destruct (Ascii.eqb c newline). }
    rewrite Hl. by apply rstrip_line.
Qed.

Lemma strip_newline_one_line s : one_line s → strip_newline s = s.
Proof.
  intros Hs. unfold strip_newline. rewrite lstrip_one_line by done.
  by apply rstrip_one_line.
Qed.

Lemma Vocab_getitem_eq v token :
  Vocab_getitem v token = Ok (dict_get (stoi v) token (dict_get (stoi v) UNK None)).
Proof. reflexivity. Qed.

Lemma tokenize_eq v paragraph :
  tokenize v paragraph
  = Ok ((fun token => dict_get (stoi v) token (dict_get (stoi v) UNK None))
          <$> py_list_of_str paragraph).
Proof.
  unfold tokenize. induction (py_list_of_str paragraph) as [|t l IH]; [done|].
  cbn. rewrite IH. done.
Qed.

Lemma length_py_list_of_str s : length (py_list_of_str s) = String.length s.
Proof. induction s as [|c s IH]; simpl; [done|]. by rewrite IH. Qed.

End VocabMore.

(** X1.  Every ID that a lookup returns is a valid index of the symbol
    list, and the symbol there is the looked-up one or, for a symbol that is
    not in the file, ['[UNK]']. *)
Theorem Vocab_getitem_in_range (lines : list string) (token : string) (i : nat) :
  Vocab_getitem (Vocab_init lines) token = Ok (Some i) →
  let v := Vocab_init lines in
  (i < Vocab_len v)%nat ∧
  (itos v !! i = Some token ∨ ((token ∉ itos v) ∧ itos v !! i = Some UNK)).
Proof.
  intros H v. pose proof (Vocab_init_last lines) as Hlast. fold v in Hlast, H.
  rewrite Vocab_getitem_eq in H. injection H as H. unfold dict_get in H.
  assert (Hk : ∀ s, stoi v !! s = Some i → itos v !! i = Some s).
  { intros s Hs. by apply Hlast in Hs as [Hs _]. }
  destruct (stoi v !! token) as [k|] eqn:E.
  - injection H as ->. split; [|left; by apply Hk].
    unfold Vocab_len. eapply lookup_lt_Some. by apply Hk.
  - destruct (stoi v !! UNK) as [k|] eqn:E'; [|done]. injection H as ->.
    split; [|right; split; [by apply (stoi_last_None v)|by apply Hk]].
    unfold Vocab_len. eapply lookup_lt_Some. by apply Hk.
Qed.

Lemma Vocab_getitem_in_range_witness :
  (7 < Vocab_len (Vocab_init dna_lines))%nat.
Proof.
  apply (Vocab_getitem_in_range dna_lines "G" 7). reflexivity.
Defined.

(** X2.  [len(vocab)] is the number of lines of the file; [len(vocab.stoi)],
    the range of the random replacement, is at most that, and equal to it
    exactly when no symbol is on two lines. *)
Theorem Vocab_sizes (lines : list string) :
  let v := Vocab_init lines in
  Vocab_len v = length lines ∧
  (size (stoi v) ≤ Vocab_len v)%nat ∧
  (size (stoi v) = Vocab_len v ↔ NoDup (itos v)).
Proof.
  intros v. split.
  - unfold Vocab_len, v. by rewrite Vocab_init_itos, length_fmap.
  - apply (Vocab_load_size lines {| stoi := ∅; itos := [] |}).
    + intros s k. simpl. rewrite lookup_empty. unfold last_index. simpl.
      split; [done|]. by intros [? _].
    + split; simpl; [by rewrite map_size_empty|].
      split; [constructor|by rewrite map_size_empty].
Qed.

(** X3.  A file written one symbol per line, the last line with or
    without its newline, loads as the list of its symbols in order. *)
Theorem Vocab_init_lines (symbols : list string) (last : string) :
  Forall one_line symbols → one_line last →
  itos (Vocab_init (line <$> symbols)) = symbols ∧
  itos (Vocab_init ((line <$> symbols) ++ [last])) = symbols ++ [last].
Proof.
  intros Hs Hl. rewrite !Vocab_init_itos. split.
  - rewrite <- list_fmap_compose. rewrite <- (list_fmap_id symbols) at 2.
    apply list_fmap_ext. intros i s Hi. simpl. apply strip_newline_line.
    eapply (proj1 (Forall_lookup _ _) Hs); exact Hi.
  - rewrite fmap_app. simpl. rewrite (strip_newline_one_line last Hl). f_equal.
    rewrite <- list_fmap_compose. rewrite <- (list_fmap_id symbols) at 2.
    apply list_fmap_ext. intros i s Hi. simpl. apply strip_newline_line.
    eapply (proj1 (Forall_lookup _ _) Hs); exact Hi.
Qed.

Lemma Vocab_init_lines_witness :
  itos (Vocab_init (line <$> ["[UNK]"; "A"])) = ["[UNK]"; "A"].
Proof.
  apply (Vocab_init_lines ["[UNK]"; "A"] "C"); [|reflexivity].
  repeat constructor.
Defined.

(** X4.  Tokenization never fails and gives one ID per character.  The ID
    of a character of the vocabulary is an index holding that character; a
    character that is not in the vocabulary gets the ID of ['[UNK]'], or
    [None] when the file has no ['[UNK]']. *)
Theorem tokenize_ids (lines : list string) (paragraph : string) :
  let v := Vocab_init lines in
  ∃ ids,
    tokenize v paragraph = Ok ids ∧
    length ids = String.length paragraph ∧
    ∀ i token, py_list_of_str paragraph !! i = Some token →
      ∃ id, ids !! i = Some id ∧
        (token ∈ itos v → symbol_of v id = Some token) ∧
        ((token ∉ itos v) → UNK ∈ itos v → symbol_of v id = Some UNK) ∧
        ((token ∉ itos v) → (UNK ∉ itos v) → id = None).
Proof.
  intros v. pose proof (Vocab_init_last lines) as Hlast. fold v in Hlast.
  rewrite tokenize_eq. eexists. split; [reflexivity|].
  split; [by rewrite length_fmap, length_py_list_of_str|].
  intros i token Hi. rewrite list_lookup_fmap, Hi. simpl. eexists. split; [reflexivity|].
  unfold dict_get.
  assert (Hk : ∀ s k, stoi v !! s = Some k → symbol_of v (Some k) = Some s).
  { intros s k Hs. simpl. by apply Hlast in Hs as [Hs _]. }
  split; [|split].
  - intros Hin. destruct (stoi v !! token) as [k|] eqn:E; [by apply Hk|].
    by apply (stoi_last_None v) in E.
  - intros Hnot Hunk. apply (stoi_last_None v) in Hnot; [|done]. rewrite Hnot.
    destruct (stoi v !! UNK) as [k|] eqn:E; [by apply Hk|].
    by apply (stoi_last_None v) in E.
  - intros Hnot Hunk. apply (stoi_last_None v) in Hnot, Hunk; [|done|done].
    by rewrite Hnot, Hunk.
Qed.

(** * Sequence extraction *)

Section ExtractionFacts.

Lemma length_read_windows df m : ∀ groups start,
  length (read_windows df groups start m) = (groups * length df)%nat.
Proof.
  induction groups as [|g IH]; intros start; simpl; [done|].
  by rewrite length_app, length_fmap, IH.
Qed.

Lemma lookup_read_windows df m : ∀ groups start k r vec,
  (k < groups)%nat → df !! r = Some vec →
  read_windows df groups start m !! (k * length df + r)%nat
  = Some (vec2str vec (start + k * m) m).
Proof.
  induction groups as [|g IH]; intros start k r vec Hk Hr; [lia|].
  pose proof (lookup_lt_Some _ _ _ Hr) as Hlt. simpl.
  destruct k as [|k].
  - simpl. rewrite lookup_app_l by (by rewrite length_fmap).
    rewrite list_lookup_fmap, Hr. simpl. by rewrite Nat.add_0_r.
  - rewrite lookup_app_r by (rewrite length_fmap; simpl; lia).
    rewrite length_fmap.
    replace (S k * length df + r - length df)%nat with (k * length df + r)%nat
      by (simpl; lia).
    rewrite (IH (start + m)%nat k r vec) by (done || lia).
    do 2 f_equal. simpl. lia.
Qed.

Lemma string_length_join (l : list string) :
  String.length (str_join l) = sum_list (String.length <$> l).
Proof.
  induction l as [|s l IH]; [done|]. simpl.
  change (String.length (s +:+ str_join l)
          = (String.length s + sum_list (String.length <$> l))%nat).
  by rewrite string_length_app, IH.
Qed.

Lemma str_int_digit (x : Z) : 0 ≤ x ≤ 9 → String.length (str_int x) = 1%nat.
Proof.
  intros Hx.
  assert (H : x = 0 ∨ x = 1 ∨ x = 2 ∨ x = 3 ∨ x = 4 ∨ x = 5 ∨ x = 6 ∨ x = 7
              ∨ x = 8 ∨ x = 9) by lia.
  repeat (destruct H as [->|H]; [reflexivity|]). by subst.
Qed.

End ExtractionFacts.

(** X5.  [read_dnaseq] never fails.  Its result is a reordering of the
    [number_of_group * rows] windows, where the window of group [k] and row
    [r] is [vec2str] of that row from [inital_site + k * max_len]. *)
Theorem read_dnaseq_windows (df : list (list Z)) (inital_site number_of_group max_len : nat)
    (st : RandomState) :
  ∃ paragraphs st',
    read_dnaseq df inital_site number_of_group max_len st = Ok (paragraphs, st') ∧
    paragraphs ≡ₚ read_windows df number_of_group inital_site max_len ∧
    length paragraphs = (number_of_group * length df)%nat ∧
    ∀ k r vec, (k < number_of_group)%nat → df !! r = Some vec →
      vec2str vec (inital_site + k * max_len) max_len ∈ paragraphs.
Proof.
  destruct (random_shuffle_perm
              (read_windows df number_of_group inital_site max_len) st)
    as (ps & st' & Hrun & Hperm).
  exists ps, st'. split; [exact Hrun|]. split; [exact Hperm|]. split.
  - by rewrite Hperm, length_read_windows.
  - intros k r vec Hk Hr. rewrite Hperm. apply list_elem_of_lookup.
    exists (k * length df + r)%nat. by apply lookup_read_windows.
Qed.

(** X6.  On a row of decimal digits a window has one character per element
    of the slice: [min(max_len, len(row) - start)] characters, none when the
    window starts at or after the end of the row. *)
Theorem vec2str_length (vec : list Z) (start max_len : nat) :
  digit_row vec →
  String.length (vec2str vec start max_len) = Nat.min max_len (length vec - start) ∧
  ((length vec ≤ start)%nat → vec2str vec start max_len = EmptyString).
Proof.
  intros Hd. unfold vec2str, py_slice. split.
  - rewrite string_length_join, <- list_fmap_compose.
    rewrite (sum_list_fmap_same 1%nat).
    + rewrite length_take, length_drop. lia.
    + apply Forall_forall. intros x Hx. simpl. apply str_int_digit.
      unfold digit_row in Hd. rewrite Forall_forall in Hd. apply Hd.
      apply (subseteq_drop start). by apply (subseteq_take max_len).
  - intros Hle. rewrite drop_ge by done. by rewrite take_nil.
Qed.

Lemma vec2str_length_witness :
  String.length (vec2str [1; 2; 3; 0; 1] 2 512) = 3%nat.
Proof.
  apply (vec2str_length [1; 2; 3; 0; 1] 2 512). unfold digit_row.
  repeat constructor; lia.
Defined.

(** * The masking engine: edge cases *)

Section EngineEdges.
Variable d : LoadDNADataset.

Lemma candidates_from_special token_ids : ∀ i,
  Forall (fun t => t = CLS_IDX d ∨ t = SEP_IDX d) token_ids →
  candidates_from d i token_ids = [].
Proof.
  induction token_ids as [|t rest IH]; intros i Hall; [done|].
  apply Forall_cons in Hall as [Ht Hall]. cbn [candidates_from].
  rewrite bool_decide_eq_true_2; [by apply IH|].
  destruct Ht as [->| ->]; [by left|right; by left].
Qed.

Lemma make_labels_nil token_ids :
  make_labels d token_ids [] = replicate (length token_ids) (PAD_IDX d).
Proof.
  unfold make_labels. apply list_eq. intros i. rewrite list_lookup_imap.
  destruct (token_ids !! i) as [t|] eqn:E; simpl.
  - rewrite lookup_replicate_2 by (by eapply lookup_lt_Some). done.
  - symmetry. apply lookup_replicate_None. by apply lookup_ge_None.
Qed.

End EngineEdges.

(** X7.  A sequence made of [[CLS]] and [[SEP]] tokens only has no
    candidate: the result is the sequence itself with every label
    [PAD_IDX], and no draw is made. *)
Theorem get_masked_sample_all_special (d : LoadDNADataset) (token_ids : list Z)
    (st : RandomState) (n : Z) :
  round_len_rate d (length token_ids) = Ok n →
  Forall (fun t => t = CLS_IDX d ∨ t = SEP_IDX d) token_ids →
  get_masked_sample d token_ids st
  = Ok ((token_ids, replicate (length token_ids) (PAD_IDX d)), st).
Proof.
  intros Hn Hall. unfold get_masked_sample.
  rewrite (candidates_from_special d token_ids 0 Hall).
  unfold mbind at 1. unfold M_bind. rewrite random_shuffle_nil.
  unfold mbind at 1. unfold M_bind, lift.
  rewrite (num_mlm_preds_of_round d _ _ Hn).
  unfold replace_masked_tokens, replace_masked_tokens_trace. unfold_monad. simpl.
  by rewrite make_labels_nil.
Qed.

Lemma get_masked_sample_all_special_witness :
  get_masked_sample dna_dataset [2; 3] (tape_of []) = Ok (([2; 3], [0; 0]), tape_of []).
Proof.
  apply (get_masked_sample_all_special dna_dataset [2; 3] (tape_of []) 0).
  - reflexivity.
  - apply Forall_cons_2; [by left|]. apply Forall_cons_2; [by right|]. apply Forall_nil_2.
Defined.

(** X8.  [replace_masked_tokens] with a target count of zero or less
    commits nothing, whatever the candidates, and draws nothing; with a
    positive count and a first candidate beyond the end of the sequence it
    raises [IndexError]. *)
Theorem replace_masked_tokens_edges (d : LoadDNADataset) (token_ids : list Z)
    (candidates : list nat) (k : Z) (st : RandomState) :
  (k ≤ 0 →
   replace_masked_tokens d token_ids candidates k st
   = Ok ((token_ids, replicate (length token_ids) (PAD_IDX d)), st)) ∧
  (0 < k → ∀ p, (length token_ids ≤ p)%nat →
   replace_masked_tokens d token_ids (p :: candidates) k st = Raise IndexError).
Proof.
  split.
  - intros Hk. unfold replace_masked_tokens, replace_masked_tokens_trace.
    assert (H : replace_loop d token_ids k candidates [] token_ids st
                = Ok (([], token_ids), st)).
    { destruct candidates as [|p rest]; [done|]. cbn [replace_loop length].
      destruct (Z.of_nat 0 >=? k) eqn:E; [done|].
      rewrite Z.geb_leb in E. apply Z.leb_gt in E. lia. }
    unfold_monad. rewrite H. simpl. by rewrite make_labels_nil.
  - intros Hk p Hp. unfold replace_masked_tokens, replace_masked_tokens_trace.
    assert (H : replace_loop d token_ids k (p :: candidates) [] token_ids st
                = Raise IndexError).
    { cbn [replace_loop length].
      destruct (Z.of_nat 0 >=? k) eqn:E.
      { rewrite Z.geb_leb in E. apply Z.leb_le in E. lia. }
      by rewrite (lookup_ge_None_2 token_ids p Hp). }
    unfold_monad. by rewrite H.
Qed.

(** * The batch collator: failures, layout and padding *)

Section CollatorMore.

(** The value of [generate_batch] on a non-empty batch. *)
Lemma generate_batch_value (d : LoadDNADataset) (data_batch : list (list Z * list Z)) :
  data_batch ≠ [] → max_sen_len d ≠ MaxSame →
  let T := target_len (max_sen_len d) (fst <$> data_batch) in
  let T' := target_len (max_sen_len d) (snd <$> data_batch) in
  let tokens := Tensor2 T (length data_batch)
                  (columns T (pad_one T (PAD_IDX d) <$> (fst <$> data_batch))) in
  let labels := Tensor2 T' (length data_batch)
                  (columns T' (pad_one T' (PAD_IDX d) <$> (snd <$> data_batch))) in
  generate_batch d data_batch
  = Ok (tokens, transpose01 (tmap (fun x => bool_decide (x = PAD_IDX d)) tokens), labels).
Proof.
  intros Hne Hm T T' tokens labels. unfold generate_batch.
  assert (Hne1 : fst <$> data_batch ≠ []) by (by destruct data_batch).
  assert (Hne2 : snd <$> data_batch ≠ []) by (by destruct data_batch).
  rewrite (pad_sequence_spec _ _ (PAD_IDX d) Hne1 Hm). fold T. simpl.
  rewrite (pad_sequence_spec _ _ (PAD_IDX d) Hne2 Hm). fold T'. simpl.
  subst tokens labels. by rewrite !length_fmap.
Qed.

Lemma generate_batch_nil (d : LoadDNADataset) :
  generate_batch d [] = Raise (empty_batch_error (max_sen_len d)).
Proof. unfold generate_batch, pad_sequence. by destruct (max_sen_len d). Qed.

Lemma generate_batch_same (d : LoadDNADataset) (data_batch : list (list Z * list Z)) :
  data_batch ≠ [] → max_sen_len d = MaxSame →
  generate_batch d data_batch = Raise TypeError.
Proof.
  intros Hne Hm. unfold generate_batch, pad_sequence. rewrite Hm.
  by destruct data_batch.
Qed.

Lemma generate_batch_Ok_inv (d : LoadDNADataset) (data_batch : list (list Z * list Z)) r :
  generate_batch d data_batch = Ok r → data_batch ≠ [] ∧ max_sen_len d ≠ MaxSame.
Proof.
  intros H. split.
  - intros ->. by rewrite generate_batch_nil in H.
  - intros Hm. destruct data_batch as [|s l].
    + by rewrite generate_batch_nil in H.
    + by rewrite generate_batch_same in H.
Qed.

(** Transposing twice gives the rows back. *)
Lemma columns_columns {A} (n : nat) (xs : list (list A)) :
  Forall (fun r => length r = n) xs →
  columns (length xs) (columns n xs) = xs.
Proof.
  intros Hxs.
  assert (Hge : Forall (fun r => (n ≤ length r)%nat) xs).
  { eapply Forall_impl; [exact Hxs|]. simpl. lia. }
  destruct (columns_wf n xs Hge) as [Hl Hr]. simpl in Hl, Hr.
  apply list_eq. intros b.
  destruct (decide (b < length xs)%nat) as [Hb|Hb].
  - rewrite columns_lookup by done.
    destruct (lookup_lt_is_Some_2 xs b Hb) as [r Hrb]. rewrite Hrb. f_equal.
    apply list_eq. intros t.
    assert (Hcol : Forall (fun c : list A => (b < length c)%nat) (columns n xs)).
    { eapply Forall_impl; [exact Hr|]. simpl. lia. }
    rewrite (proj2 (omap_lookup_rect (columns n xs) b Hcol) t).
    destruct (decide (t < n)%nat) as [Ht|Ht].
    + rewrite (columns_get n xs t b Hge Ht). by rewrite Hrb.
    + rewrite (lookup_ge_None_2 (columns n xs)) by (rewrite length_columns; lia).
      simpl. symmetry. apply lookup_ge_None_2.
      rewrite Forall_lookup in Hxs. rewrite (Hxs _ _ Hrb). lia.
  - rewrite !lookup_ge_None_2; [done|lia|rewrite length_columns; lia].
Qed.

Lemma count_ne_app pad (l k : list Z) :
  count_ne pad (l ++ k) = (count_ne pad l + count_ne pad k)%nat.
Proof. unfold count_ne. by rewrite filter_app, length_app. Qed.

Lemma count_ne_replicate pad n : count_ne pad (replicate n pad) = 0%nat.
Proof.
  unfold count_ne. induction n as [|n IH]; [done|]. simpl.
  by rewrite filter_cons_False by (intros H; by apply H).
Qed.

Lemma count_ne_join pad (ls : list (list Z)) :
  count_ne pad (mjoin ls) = sum_list (count_ne pad <$> ls).
Proof.
  induction ls as [|l ls IH]; [done|]. simpl.
  change (count_ne pad (l ++ mjoin ls)
          = (count_ne pad l + sum_list (count_ne pad <$> ls))%nat).
  by rewrite count_ne_app, IH.
Qed.

(** Padding adds no value that differs from the padding value. *)
Lemma count_ne_pad_one pad T (s : list Z) :
  count_ne pad (pad_one T pad s) = count_ne pad (take T s).
Proof.
  unfold pad_one. destruct (Nat.ltb_spec (length s) T) as [Hlt|Hge]; [|done].
  rewrite count_ne_app, count_ne_replicate, take_ge by lia. lia.
Qed.

End CollatorMore.

(** X9.  How [generate_batch] fails.  The empty batch raises [ValueError]
    under [None] and [RuntimeError] otherwise, and under ['same'] a
    non-empty batch raises [TypeError]; so a batch that collates is not
    empty, and [max_sen_len] is not ['same'] then. *)
Theorem generate_batch_failures (d : LoadDNADataset)
    (data_batch : list (list Z * list Z)) :
  (data_batch = [] →
   generate_batch d data_batch = Raise (empty_batch_error (max_sen_len d))) ∧
  (data_batch ≠ [] → max_sen_len d = MaxSame →
   generate_batch d data_batch = Raise TypeError) ∧
  (∀ r, generate_batch d data_batch = Ok r →
   data_batch ≠ [] ∧ max_sen_len d ≠ MaxSame).
Proof.
  split; [intros ->; apply generate_batch_nil|].
  split; [apply generate_batch_same|].
  intros r Hr. by eapply generate_batch_Ok_inv.
Qed.

(** X10.  With [batch_first] the padded batch is batch-major: a well-shaped
    [[B, T]] tensor whose row [b] is sequence [b], padded or truncated; it
    is the transpose of the result without [batch_first]. *)
Theorem pad_sequence_batch_first (sequences : list (list Z)) (m : max_len_arg)
    (padding_value : Z) :
  sequences ≠ [] → m ≠ MaxSame →
  let T := target_len m sequences in
  ∃ x y,
    pad_sequence sequences true m padding_value = Ok x ∧
    pad_sequence sequences false m padding_value = Ok y ∧
    x = transpose01 y ∧
    tensor_wf x ∧ dim0 x = length sequences ∧ dim1 x = T ∧
    rows x = pad_one T padding_value <$> sequences ∧
    ∀ b s t, sequences !! b = Some s → (t < T)%nat →
      tget x b t = Some (default padding_value (s !! t)).
Proof.
  intros Hne Hm T.
  pose proof (pad_sequence_spec sequences m padding_value Hne Hm) as Hy.
  cbv zeta in Hy. fold T in Hy.
  set (y := Tensor2 T (length sequences) _) in Hy.
  assert (Hx : pad_sequence sequences true m padding_value = Ok (transpose01 y)).
  { unfold pad_sequence in *.
    destruct (match m with MaxNone => _ | MaxInt n => _ | MaxSame => _ end) as [n|e];
      simpl in *; [|done].
    destruct (torch_stack_dim1 _) as [z|e]; simpl in *; [|done].
    by injection Hy as ->. }
  assert (Hrows : rows (transpose01 y) = pad_one T padding_value <$> sequences).
  { unfold transpose01, y. simpl.
    rewrite <- (length_fmap (pad_one T padding_value) sequences).
    apply columns_columns. apply Forall_fmap, Forall_forall. intros s _. simpl.
    apply length_pad_one. }
  exists (transpose01 y), y. split; [done|]. split; [done|]. split; [done|].
  split; [apply transpose01_wf, padded_wf|]. split; [done|]. split; [done|].
  split; [done|].
  intros b s t Hb Ht. unfold tget. rewrite Hrows, list_lookup_fmap, Hb. simpl.
  by apply lookup_pad_one.
Qed.

Lemma pad_sequence_batch_first_witness :
  ∃ x, pad_sequence [[1; 2]; [3]] true MaxNone 0 = Ok x ∧ rows x = [[1; 2]; [3; 0]].
Proof.
  destruct (pad_sequence_batch_first [[1; 2]; [3]] MaxNone 0)
    as (x & y & Hx & _ & _ & _ & _ & _ & Hrows & _).
  - discriminate.
  - discriminate.
  - exists x. split; [exact Hx|]. rewrite Hrows. reflexivity.
Defined.

(** X11.  In a collated batch every position past the end of a sample
    holds [PAD_IDX] in the token tensor and in the label tensor, and the
    padding mask is true there. *)
Theorem generate_batch_padding (d : LoadDNADataset) (data_batch : list (list Z * list Z))
    (tokens : tensor2 Z) (mask : tensor2 bool) (labels : tensor2 Z) :
  generate_batch d data_batch = Ok (tokens, mask, labels) →
  ∀ b token_ids mlm_label t, data_batch !! b = Some (token_ids, mlm_label) →
    ((length token_ids ≤ t < dim0 tokens)%nat →
     tget tokens t b = Some (PAD_IDX d) ∧ tget mask b t = Some true) ∧
    ((length mlm_label ≤ t < dim0 labels)%nat →
     tget labels t b = Some (PAD_IDX d)).
Proof.
  intros Hrun b token_ids mlm_label t Hb.
  destruct (generate_batch_Ok_inv _ _ _ Hrun) as [Hne Hm].
  rewrite (generate_batch_value d data_batch Hne Hm) in Hrun.
  injection Hrun as <- <- <-. simpl.
  assert (Hb1 : (fst <$> data_batch) !! b = Some token_ids)
    by (by rewrite list_lookup_fmap, Hb).
  assert (Hb2 : (snd <$> data_batch) !! b = Some mlm_label)
    by (by rewrite list_lookup_fmap, Hb).
  split.
  - intros [Hlen Ht].
    pose proof (padded_get _ (PAD_IDX d) _ t b _ Ht Hb1) as Hget.
    rewrite (lookup_ge_None_2 token_ids t Hlen) in Hget. simpl in Hget.
    rewrite !length_fmap in Hget. split; [exact Hget|].
    rewrite tget_transpose01.
    + rewrite tget_tmap, Hget. simpl. by rewrite bool_decide_eq_true_2.
    + apply tmap_wf. rewrite <- (length_fmap fst data_batch). apply padded_wf.
    + simpl. by eapply lookup_lt_Some.
  - intros [Hlen Ht].
    pose proof (padded_get _ (PAD_IDX d) _ t b _ Ht Hb2) as Hget.
    rewrite (lookup_ge_None_2 mlm_label t Hlen) in Hget. simpl in Hget.
    by rewrite !length_fmap in Hget.
Qed.

Lemma generate_batch_padding_witness :
  ∃ tokens mask labels,
    generate_batch dna_dataset dna_batch = Ok (tokens, mask, labels) ∧
    tget tokens 4 0 = Some 0 ∧ tget mask 0 4 = Some true.
Proof.
  eexists _, _, _. split; [reflexivity|].
  apply (generate_batch_padding dna_dataset dna_batch _ _ _ eq_refl
           0%nat [2; 5; 6; 3] [0; 5; 0; 0] 4%nat eq_refl).
  simpl. lia.
Defined.

(** X12.  The labels of a collated batch that differ from [PAD_IDX] are
    those of the samples, each cut at the target length: padding adds none,
    and without a fixed length none is lost. *)
Theorem generate_batch_label_count (d : LoadDNADataset)
    (data_batch : list (list Z * list Z))
    (tokens : tensor2 Z) (mask : tensor2 bool) (labels : tensor2 Z) :
  generate_batch d data_batch = Ok (tokens, mask, labels) →
  flatten (transpose01 labels)
    = mjoin (pad_one (dim0 labels) (PAD_IDX d) <$> (snd <$> data_batch)) ∧
  count_ne (PAD_IDX d) (flatten (transpose01 labels))
    = sum_list ((fun s => count_ne (PAD_IDX d) (take (dim0 labels) s.2)) <$> data_batch) ∧
  (max_sen_len d = MaxNone →
   count_ne (PAD_IDX d) (flatten (transpose01 labels))
     = sum_list ((fun s => count_ne (PAD_IDX d) s.2) <$> data_batch)).
Proof.
  intros Hrun.
  destruct (generate_batch_Ok_inv _ _ _ Hrun) as [Hne Hm].
  rewrite (generate_batch_value d data_batch Hne Hm) in Hrun.
  injection Hrun as _ _ <-. simpl.
  set (T' := target_len (max_sen_len d) (snd <$> data_batch)).
  assert (Hflat : flatten (transpose01
            (Tensor2 T' (length data_batch)
               (columns T' (pad_one T' (PAD_IDX d) <$> (snd <$> data_batch)))))
          = mjoin (pad_one T' (PAD_IDX d) <$> (snd <$> data_batch))).
  { unfold flatten, transpose01. simpl. f_equal.
    rewrite <- (length_fmap snd data_batch).
    rewrite <- (length_fmap (pad_one T' (PAD_IDX d)) (snd <$> data_batch)).
    apply columns_columns. apply Forall_fmap, Forall_forall. intros s _. simpl.
    apply length_pad_one. }
  split; [exact Hflat|]. rewrite Hflat, count_ne_join.
  assert (Hsum : sum_list (count_ne (PAD_IDX d)
                    <$> (pad_one T' (PAD_IDX d) <$> (snd <$> data_batch)))
                 = sum_list ((fun s : list Z * list Z =>
                      count_ne (PAD_IDX d) (take T' s.2)) <$> data_batch)).
  { f_equal. rewrite <- !list_fmap_compose. apply list_fmap_ext.
    intros i s _. simpl. apply count_ne_pad_one. }
  split; [exact Hsum|]. intros Hnone. rewrite Hsum. f_equal.
  apply list_fmap_ext. intros i s Hs. simpl. f_equal. apply take_ge.
  subst T'. rewrite Hnone. simpl.
  apply max_list_elem_of_le. apply list_elem_of_fmap. exists s.2. split; [done|].
  apply list_elem_of_fmap. exists s. split; [done|].
  apply list_elem_of_lookup. eauto.
Qed.

Lemma generate_batch_label_count_witness :
  ∃ tokens mask labels,
    generate_batch dna_dataset dna_batch = Ok (tokens, mask, labels) ∧
    count_ne 0 (flatten (transpose01 labels))
      = sum_list ((fun s => count_ne 0 s.2) <$> dna_batch).
Proof.
  eexists _, _, _. split; [reflexivity|].
  exact (proj2 (proj2 (generate_batch_label_count dna_dataset dna_batch _ _ _ eq_refl))
           eq_refl).
Defined.

(** * accuracy and evaluate *)

Section AccuracyMore.
Context {score : Type} (score_ltb : score → score → bool).

Lemma count_true_mask (pad : Z) (l : list Z) :
  count_true ((fun t => negb (bool_decide (t = pad))) <$> l) = Z.of_nat (count_ne pad l).
Proof.
  unfold count_true, count_ne. f_equal.
  induction l as [|x l IH]; [done|]. rewrite fmap_cons, !filter_cons.
  destruct (decide (x = pad)) as [->|Hne].
  - rewrite bool_decide_eq_true_2 by done. simpl.
    repeat case_decide; try done.
  - rewrite bool_decide_eq_false_2 by done. simpl.
    repeat case_decide; try done. simpl. by rewrite IH.
Qed.

Lemma count_true_and_le (a : list bool) : ∀ m,
  count_true (zip_with andb a m) ≤ count_true m.
Proof.
  unfold count_true.
  induction a as [|x a IH]; intros m.
  - change (0 ≤ Z.of_nat (length (filter (fun b => b = true) m))). lia.
  - destruct m as [|y m]; [done|]. cbn [zip_with].
    specialize (IH m). rewrite !filter_cons.
    destruct x, y; simpl; repeat case_decide; simpl; try done; lia.
Qed.

Lemma count_true_nonneg (l : list bool) : 0 ≤ count_true l.
Proof. unfold count_true. lia. Qed.

(** [accuracy] on tensors of matching shapes. *)
Lemma accuracy_shaped (mlm_logits : tensor3 score) (mlm_labels : tensor2 Z) (PAD : Z) :
  shapes_agree mlm_logits mlm_labels →
  ∃ mlm_acc,
    let mlm_true := flatten (transpose01 mlm_labels) in
    let mask := (fun t => negb (bool_decide (t = PAD))) <$> mlm_true in
    accuracy score score_ltb mlm_logits mlm_labels PAD
    = (c ← float_of_int (count_true (zip_with andb mlm_acc mask));
       t ← float_of_int (count_true mask);
       if Z.eqb (count_true mask) 0 then Raise ZeroDivisionError
       else mret (float_div c t, count_true (zip_with andb mlm_acc mask),
                  count_true mask)).
Proof.
  intros ([Hl3 Hr3] & Hwf & H0 & H1 & Hv). unfold accuracy, transpose_argmax.
  destruct (Nat.eqb_spec (sdim2 mlm_logits) 0) as [|_]; [done|]. simpl.
  set (mlm_true := flatten (transpose01 mlm_labels)).
  set (p := Tensor2 _ _ _).
  assert (Hlen : length (flatten p) = length mlm_true).
  { subst p mlm_true.
    change (Tensor2 (sdim1 mlm_logits) (sdim0 mlm_logits) _)
      with (tmap (fun c => Z.of_nat (argmax_list score score_ltb c))
              (Tensor2 (sdim1 mlm_logits) (sdim0 mlm_logits)
                 (columns (sdim1 mlm_logits) (cells mlm_logits)))).
    rewrite flatten_tmap, !length_flatten.
    - simpl. lia.
    - by apply transpose01_wf.
    - rewrite <- Hl3. apply columns_wf.
      eapply Forall_impl; [exact Hr3|]. simpl. lia. }
  rewrite (broadcast2_same_length _ _ _ Hlen). simpl.
  rewrite broadcast2_same_length by (rewrite length_zip_with, length_fmap; lia).
  eexists. reflexivity.
Qed.

(** A returned accuracy comes with a label that is not the padding
    value. *)
Lemma accuracy_Ok_label (mlm_logits : tensor3 score) (mlm_labels : tensor2 Z) (PAD : Z) r :
  accuracy score score_ltb mlm_logits mlm_labels PAD = Ok r → has_label PAD mlm_labels.
Proof.
  unfold accuracy.
  destruct (transpose_argmax _ _ _) as [p|e]; simpl; [|done].
  destruct (broadcast2 _ _ _) as [acc|e]; simpl; [|done].
  destruct (broadcast2 andb _ _) as [acc'|e]; simpl; [|done].
  destruct (float_of_int (count_true acc')) as [c|e]; simpl; [|done].
  destruct (float_of_int (count_true _)) as [t|e]; simpl; [|done].
  rewrite count_true_mask.
  destruct (Z.eqb_spec (Z.of_nat (count_ne PAD (flatten (transpose01 mlm_labels)))) 0)
    as [|Hne]; [done|]. intros _.
  unfold count_ne in Hne.
  destruct (filter _ _) as [|x l] eqn:E; [done|].
  assert (Hx : x ∈ filter (fun x => x ≠ PAD) (flatten (transpose01 mlm_labels)))
    by (rewrite E; by left).
  apply list_elem_of_filter in Hx as [Hx Hin].
  apply elem_of_flatten_transpose in Hin as (i & j & Hget). by exists i, j, x.
Qed.

End AccuracyMore.

(** X13.  On logits and labels of matching shapes, a returned accuracy has
    as total the number of labels that differ from [PAD_IDX], which is
    positive, and a correct count between zero and the total. *)
Theorem accuracy_counts (score : Type) (score_ltb : score → score → bool)
    (mlm_logits : tensor3 score) (mlm_labels : tensor2 Z) (PAD : Z)
    (mlm_acc : spec_float) (mlm_correct mlm_total : Z) :
  shapes_agree mlm_logits mlm_labels →
  accuracy score score_ltb mlm_logits mlm_labels PAD
    = Ok (mlm_acc, mlm_correct, mlm_total) →
  mlm_total = Z.of_nat (count_ne PAD (flatten (transpose01 mlm_labels))) ∧
  0 < mlm_total ∧
  0 ≤ mlm_correct ≤ mlm_total.
Proof.
  intros Hshape. destruct (accuracy_shaped score_ltb _ _ PAD Hshape) as [acc ->].
  cbv zeta.
  destruct (float_of_int (count_true (zip_with andb acc _))) as [c|e]; simpl; [|done].
  destruct (float_of_int (count_true _)) as [t|e]; simpl; [|done].
  destruct (Z.eqb_spec (count_true
    ((fun t => negb (bool_decide (t = PAD))) <$> flatten (transpose01 mlm_labels))) 0)
    as [|Hne]; [done|].
  intros [= _ <- <-].
  pose proof (count_true_and_le acc
    ((fun t => negb (bool_decide (t = PAD))) <$> flatten (transpose01 mlm_labels))).
  pose proof (count_true_nonneg (zip_with andb acc
    ((fun t => negb (bool_decide (t = PAD))) <$> flatten (transpose01 mlm_labels)))).
  rewrite count_true_mask in *. lia.
Qed.

(** Labels [[0, 1, 0, 2]] and predictions [[2, 1, 2, 0]]: one of the two
    labelled positions is right. *)
Lemma accuracy_counts_witness :
  ∃ rate,
    accuracy Z Z.ltb
      (Tensor3 4 1 3 [[[1; 2; 3]]; [[1; 5; 3]]; [[1; 2; 3]]; [[7; 2; 3]]])
      (Tensor2 4 1 [[0]; [1]; [0]; [2]]) 0 = Ok (rate, 1, 2) ∧
    0 ≤ 1 ≤ 2.
Proof.
  eexists. split; [reflexivity|].
  refine (proj2 (proj2 (accuracy_counts Z Z.ltb
    (Tensor3 4 1 3 [[[1; 2; 3]]; [[1; 5; 3]]; [[1; 2; 3]]; [[7; 2; 3]]])
    (Tensor2 4 1 [[0]; [1]; [0]; [2]]) 0 _ 1 2 _ eq_refl))).
  split; [split; [reflexivity|by repeat constructor]|].
  split; [split; [reflexivity|by repeat constructor]|].
  split; [reflexivity|]. split; [reflexivity|discriminate].
Defined.

Section EvaluateFacts.
Context {score : Type} (score_ltb : score → score → bool).
Context (model : tensor2 Z → tensor2 bool → result (tensor3 score)).
Context (roc_auc : tensor3 score → tensor2 Z → result spec_float).

Lemma evaluate_loop_Ok data_iter PAD : ∀ c t a n r,
  evaluate_loop score score_ltb model roc_auc data_iter PAD c t a n = Ok r →
  Forall (fun b : tensor2 Z * tensor2 bool * tensor2 Z =>
            (∃ logits, model b.1.1 b.1.2 = Ok logits) ∧ has_label PAD b.2) data_iter ∧
  r.2 = n + Z.of_nat (length data_iter).
Proof.
  induction data_iter as [|[[tok mask] lab] rest IH]; intros c t a n r H.
  - injection H as <-. split; [constructor|]. simpl. lia.
  - cbn [evaluate_loop] in H.
    destruct (model tok mask) as [logits|e] eqn:Em; simpl in H; [|done].
    destruct (accuracy score score_ltb logits lab PAD) as [[[rate cor] tot]|e] eqn:Ea;
      simpl in H; [|done].
    destruct (roc_auc logits lab) as [x|e]; simpl in H; [|done].
    destruct (IH _ _ _ _ _ H) as [Hall Hn]. split.
    + constructor; [|done]. split; [by exists logits|].
      simpl. by eapply accuracy_Ok_label.
    + rewrite Hn. simpl. lia.
Qed.

Lemma evaluate_loop_counts data_iter PAD : ∀ c t a n c' t' a' n',
  evaluate_loop score score_ltb model roc_auc data_iter PAD c t a n
    = Ok (c', t', a', n') →
  ∃ counts : list (Z * Z),
    Forall2 (fun (b : tensor2 Z * tensor2 bool * tensor2 Z) (ct : Z * Z) =>
               ∃ logits rate,
                 model b.1.1 b.1.2 = Ok logits ∧
                 accuracy score score_ltb logits b.2 PAD = Ok (rate, ct.1, ct.2))
            data_iter counts ∧
    c' = c + sum_Z (fst <$> counts) ∧ t' = t + sum_Z (snd <$> counts).
Proof.
  induction data_iter as [|[[tok mask] lab] rest IH]; intros c t a n c' t' a' n' H.
  - injection H as <- <- <- <-. exists []. split; [constructor|]. unfold sum_Z. simpl. lia.
  - cbn [evaluate_loop] in H.
    destruct (model tok mask) as [logits|e] eqn:Em; simpl in H; [|done].
    destruct (accuracy score score_ltb logits lab PAD) as [[[rate cor] tot]|e] eqn:Ea;
      simpl in H; [|done].
    destruct (roc_auc logits lab) as [x|e]; simpl in H; [|done].
    destruct (IH _ _ _ _ _ _ _ _ H) as (counts & Hall & Hc & Ht).
    exists ((cor, tot) :: counts). split.
    + constructor; [|done]. by exists logits, rate.
    + rewrite !fmap_cons. cbn [sum_Z foldr fst snd]. fold (sum_Z (fst <$> counts)).
      fold (sum_Z (snd <$> counts)). lia.
Qed.

End EvaluateFacts.

(** X14.  [evaluate] on an empty iterator raises [ZeroDivisionError];
    when it returns, the model returned logits on every batch and every
    batch has a label that is not [PAD_IDX]. *)
Theorem evaluate_batches (score : Type) (score_ltb : score → score → bool)
    (model : tensor2 Z → tensor2 bool → result (tensor3 score))
    (roc_auc : tensor3 score → tensor2 Z → result spec_float)
    (data_iter : list (tensor2 Z * tensor2 bool * tensor2 Z)) (PAD : Z) :
  evaluate score score_ltb model roc_auc [] PAD = Raise ZeroDivisionError ∧
  ∀ r, evaluate score score_ltb model roc_auc data_iter PAD = Ok r →
    data_iter ≠ [] ∧
    Forall (fun b : tensor2 Z * tensor2 bool * tensor2 Z =>
              (∃ logits, model b.1.1 b.1.2 = Ok logits) ∧ has_label PAD b.2) data_iter.
Proof.
  split; [reflexivity|]. intros r H. split.
  - intros ->. discriminate H.
  - unfold evaluate in H.
    destruct (evaluate_loop _ _ _ _ _ _ _ _ _ _) as [[[[c t] a] n]|e] eqn:E;
      simpl in H; [|done].
    by destruct (evaluate_loop_Ok score_ltb model roc_auc _ _ _ _ _ _ _ E) as [Hall _].
Qed.

(** X15.  The accuracy that [evaluate] returns is the quotient of the
    correct counts summed over the batches by the totals summed over the
    batches, not the mean of the batch accuracies. *)
Theorem evaluate_pooled (score : Type) (score_ltb : score → score → bool)
    (model : tensor2 Z → tensor2 bool → result (tensor3 score))
    (roc_auc : tensor3 score → tensor2 Z → result spec_float)
    (data_iter : list (tensor2 Z * tensor2 bool * tensor2 Z)) (PAD : Z)
    (acc avg : spec_float) :
  evaluate score score_ltb model roc_auc data_iter PAD = Ok (acc, avg) →
  ∃ (counts : list (Z * Z)) (corrects totals : spec_float),
    Forall2 (fun (b : tensor2 Z * tensor2 bool * tensor2 Z) (ct : Z * Z) =>
               ∃ logits rate,
                 model b.1.1 b.1.2 = Ok logits ∧
                 accuracy score score_ltb logits b.2 PAD = Ok (rate, ct.1, ct.2))
            data_iter counts ∧
    float_of_int (sum_Z (fst <$> counts)) = Ok corrects ∧
    float_of_int (sum_Z (snd <$> counts)) = Ok totals ∧
    sum_Z (snd <$> counts) ≠ 0 ∧
    acc = float_div corrects totals.
Proof.
  intros H. unfold evaluate in H.
  destruct (evaluate_loop _ _ _ _ _ _ _ _ _ _) as [[[[c t] a] n]|e] eqn:E;
    simpl in H; [|done].
  destruct (evaluate_loop_counts score_ltb model roc_auc _ _ _ _ _ _ _ _ _ _ E)
    as (counts & Hall & Hc & Ht).
  rewrite Z.add_0_l in Hc, Ht. subst c t.
  destruct (float_of_int (sum_Z (fst <$> counts))) as [cf|e] eqn:Ec; simpl in H; [|done].
  unfold float_div_int in H.
  destruct (float_of_int (sum_Z (snd <$> counts))) as [tf|e] eqn:Et; simpl in H; [|done].
  destruct (Z.eqb_spec (sum_Z (snd <$> counts)) 0) as [|Hne]; simpl in H; [done|].
  destruct (float_of_int n) as [nf|e]; simpl in H; [|done].
  destruct (n =? 0); simpl in H; [done|].
  injection H as <- <-.
  by exists counts, cf, tf.
Qed.

(** Two batches with one of two and one of one labelled positions right:
    the pooled counts are two of three. *)
Lemma evaluate_pooled_witness :
  ∃ (counts : list (Z * Z)) (corrects totals : spec_float),
    float_of_int (sum_Z (fst <$> counts)) = Ok corrects ∧
    float_of_int (sum_Z (snd <$> counts)) = Ok totals ∧
    evaluate Z Z.ltb
      (fun _ _ => Ok (Tensor3 4 1 3 [[[1; 2; 3]]; [[1; 5; 3]]; [[1; 2; 3]]; [[7; 2; 3]]]))
      (fun _ _ => Ok f0_5)
      [(Tensor2 4 1 [[0]; [1]; [0]; [2]], Tensor2 1 4 [[true; false; true; false]],
        Tensor2 4 1 [[0]; [1]; [0]; [2]]);
       (Tensor2 4 1 [[0]; [1]; [0]; [0]], Tensor2 1 4 [[true; false; true; true]],
        Tensor2 4 1 [[0]; [1]; [0]; [0]])] 0
    = Ok (float_div corrects totals, f0_5).
Proof.
  destruct (evaluate_pooled Z Z.ltb
    (fun _ _ => Ok (Tensor3 4 1 3 [[[1; 2; 3]]; [[1; 5; 3]]; [[1; 2; 3]]; [[7; 2; 3]]]))
    (fun _ _ => Ok f0_5)
    [(Tensor2 4 1 [[0]; [1]; [0]; [2]], Tensor2 1 4 [[true; false; true; false]],
      Tensor2 4 1 [[0]; [1]; [0]; [2]]);
     (Tensor2 4 1 [[0]; [1]; [0]; [0]], Tensor2 1 4 [[true; false; true; true]],
      Tensor2 4 1 [[0]; [1]; [0]; [0]])] 0 _ _ eq_refl)
    as (counts & cf & tf & _ & Hc & Ht & _ & Hacc).
  exists counts, cf, tf. split; [exact Hc|]. split; [exact Ht|].
  rewrite <- Hacc. reflexivity.
Defined.

(** * The cache and its keys *)

Section CacheMore.

Lemma last_char_app (a b : string) :
  b ≠ EmptyString → last_char (a +:+ b) = last_char b.
Proof.
  intros Hb. induction a as [|c a IH]; [by rewrite string_app_nil|].
  rewrite string_app_cons. simpl. rewrite IH.
  destruct (a +:+ b) eqn:E; [|done].
  destruct a, b; try done.
Qed.

Lemma cache_data_path_split (filepath name postfix : string) :
  cache_data_path filepath (name +:+ postfix)
  = (before_first_dot filepath +:+ "_" +:+ name) +:+ (postfix +:+ ".pt").
Proof. unfold cache_data_path. by rewrite !string_app_assoc. Qed.

(** Two cache files with the same postfix after the split name. *)
Lemma cache_data_path_names (filepath1 filepath2 name1 name2 postfix : string) :
  name1 ≠ EmptyString → name2 ≠ EmptyString →
  cache_data_path filepath1 (name1 +:+ postfix)
    = cache_data_path filepath2 (name2 +:+ postfix) →
  last_char name1 = last_char name2.
Proof.
  intros H1 H2 H. rewrite !cache_data_path_split in H.
  apply string_app_inv_tail in H. apply (f_equal last_char) in H.
  rewrite !(last_char_app (before_first_dot _)) in H by (by rewrite string_app_cons).
  by rewrite !(last_char_app "_") in H.
Qed.

Lemma cache_call_hit {D} (func : M D) (files : gmap string D)
    (filepath postfix : string) (data : D) (st : RandomState) :
  files !! cache_data_path filepath postfix = Some data →
  cache_call func files filepath postfix st = Ok ((data, files), st).
Proof. intros H. unfold cache_call. by rewrite H. Qed.

(** A call whose function returns on a miss: the data is in the files
    afterwards, the other files are untouched. *)
Lemma cache_call_run {D} (P : D → Prop) (func : M D) (files : gmap string D)
    (filepath postfix : string) (st : RandomState) :
  (∃ data st', func st = Ok (data, st') ∧ P data) →
  ∃ data files' st',
    cache_call func files filepath postfix st = Ok ((data, files'), st') ∧
    files' !! cache_data_path filepath postfix = Some data ∧
    (∀ k, k ≠ cache_data_path filepath postfix → files' !! k = files !! k) ∧
    (files !! cache_data_path filepath postfix = None → P data).
Proof.
  intros (data & st' & Hrun & HP). unfold cache_call.
  destruct (files !! cache_data_path filepath postfix) as [x|] eqn:E.
  - exists x, files, st. by repeat split.
  - exists data, (<[cache_data_path filepath postfix := data]> files), st'.
    unfold_monad. rewrite Hrun. split; [done|]. split; [by rewrite lookup_insert_eq|].
    split; [|done]. intros k Hk. by rewrite lookup_insert_ne.
Qed.

End CacheMore.

(** X16.  A first call of the cached function on a missing cache file runs
    the function and stores its result; after that, a call with the same
    postfix on any path with the same part before its first dot returns
    the stored data whatever the function is, draws no random number and
    leaves the files as they are. *)
Theorem cache_call_twice {D} (func : M D) (files : gmap string D)
    (filepath postfix : string) (data : D) (st st1 : RandomState) :
  files !! cache_data_path filepath postfix = None →
  func st = Ok (data, st1) →
  let files1 := <[cache_data_path filepath postfix := data]> files in
  cache_call func files filepath postfix st = Ok ((data, files1), st1) ∧
  ∀ (func' : M D) (filepath' : string) (st2 : RandomState),
    before_first_dot filepath' = before_first_dot filepath →
    cache_call func' files1 filepath' postfix st2 = Ok ((data, files1), st2).
Proof.
  intros Hmiss Hrun files1. split.
  - unfold cache_call. rewrite Hmiss. unfold_monad. by rewrite Hrun.
  - intros func' filepath' st2 Hpre. unfold cache_call.
    replace (cache_data_path filepath' postfix) with (cache_data_path filepath postfix)
      by (unfold cache_data_path; by rewrite Hpre).
    subst files1. by rewrite lookup_insert_eq.
Qed.

(** The data of [train.csv] is returned for [train.tsv], by a function
    that would raise. *)
Lemma cache_call_twice_witness :
  let files1 : gmap string Z := <["train_cache.pt" := 7]> ∅ in
  cache_call (mret 7) ∅ "train.csv" "cache" (tape_of []) = Ok ((7, files1), tape_of []) ∧
  cache_call (raise IndexError) files1 "train.tsv" "cache" (tape_of [])
    = Ok ((7, files1), tape_of []).
Proof.
  pose proof (cache_call_twice (mret 7) (∅ : gmap string Z) "train.csv" "cache" 7
                (tape_of []) (tape_of []) eq_refl eq_refl) as [H1 H2].
  split; [exact H1|]. exact (H2 (raise IndexError) "train.tsv" (tape_of []) eq_refl).
Defined.

(** X17.  For one instance the cache files of two different splits differ,
    whatever the two paths are. *)
Theorem cache_key_splits (str_float : spec_float → string) (d : LoadDNADataset)
    (s1 s2 : split) (filepath1 filepath2 : string) :
  cache_key str_float d s1 filepath1 = cache_key str_float d s2 filepath2 → s1 = s2.
Proof.
  unfold cache_key. intros H.
  apply cache_data_path_names in H; [|by destruct s1|by destruct s2].
  by destruct s1, s2.
Qed.

Lemma cache_key_splits_witness :
  cache_key (fun _ => "0.5") dna_dataset Test "a_train.csv"
    = cache_key (fun _ => "0.5") dna_dataset Test "a_train.tsv" ∧ Test = Test.
Proof.
  split; [reflexivity|].
  exact (cache_key_splits (fun _ => "0.5") dna_dataset Test Test
           "a_train.csv" "a_train.tsv" eq_refl).
Defined.

(** * data_process *)

Ltac unfold_monad_in H :=
  unfold mbind, M_bind, result_bind, mret, M_ret, result_ret, lift, raise in H.

Section DataFacts.
Context (d : LoadDNADataset).


Lemma after_first_dot_Some (s : string) :
  contains_char "." s = true → ∃ rest, after_first_dot s = Some rest.
Proof.
  induction s as [|c s IH]; [done|]. simpl.
  destruct (Ascii.eqb c ".") eqn:E; [by eexists|]. simpl. exact IH.
Qed.

Lemma length_truncate_ids {A} (n : nat) (l : list A) :
  length (truncate_ids n l) = Nat.min n (length l).
Proof.
  unfold truncate_ids. destruct (Nat.ltb_spec n (length l)).
  - rewrite length_take. lia.
  - lia.
Qed.

Lemma elem_of_truncate_ids {A} (n : nat) (l : list A) x :
  x ∈ truncate_ids n l → x ∈ l.
Proof.
  unfold truncate_ids. destruct (Nat.ltb n (length l)); [|done].
  intros H. apply list_elem_of_lookup in H as [i H].
  apply lookup_take_Some in H as [H _]. by eapply list_elem_of_lookup_2.
Qed.

Lemma int_ids_Some (ids : list (option nat)) :
  None ∉ ids → ∃ zs, int_ids ids = Some zs ∧ length zs = length ids.
Proof.
  intros Hnone. unfold int_ids.
  destruct (mapM _ ids) as [zs|] eqn:E.
  - exists zs. split; [done|]. symmetry. by eapply length_mapM.
  - apply mapM_None in E. apply Exists_exists in E as (o & Hin & Ho).
    destruct o; [done|]. done.
Qed.


Lemma length_make_labels token_ids pred :
  length (make_labels d token_ids pred) = length token_ids.
Proof. unfold make_labels. by rewrite length_imap. Qed.

(** With ['[UNK]'] in the vocabulary every character gets an ID. *)
Lemma tokenize_known (v : Vocab) (u : nat) (paragraph : string) :
  stoi v !! UNK = Some u →
  ∃ ids, tokenize v paragraph = Ok ids ∧ (None ∉ ids) ∧
         length ids = String.length paragraph.
Proof.
  intros Hu. rewrite tokenize_eq. eexists. split; [done|]. split.
  - intros Hin. apply list_elem_of_fmap in Hin as (t & Ht & _).
    unfold dict_get in Ht. rewrite Hu in Ht. by destruct (stoi v !! t).
  - by rewrite length_fmap, length_py_list_of_str.
Qed.

Lemma vocab_size_pos (s : string) (u : nat) :
  stoi (vocab d) !! s = Some u → 0 < vocab_size d.
Proof.
  intros Hu. unfold vocab_size.
  destruct (decide (size (stoi (vocab d)) = 0%nat)) as [E|E]; [|lia].
  apply map_size_empty_inv in E. rewrite E in Hu. by rewrite lookup_empty in Hu.
Qed.

Section Total.
Context (u : nat) (Hunk : stoi (vocab d) !! UNK = Some u).
Context (Hround : ∀ len, (len ≤ max_position_embeddings d)%nat →
                         ∃ n, round_len_rate d len = Ok n).

Lemma process_paragraph_Ok (paragraph : string) (st : RandomState) :
  ∃ sample st',
    process_paragraph d paragraph st = Ok (sample, st') ∧
    sample_of d paragraph sample.
Proof.
  destruct (tokenize_known (vocab d) u paragraph Hunk) as (ids & Htok & Hnone & Hlen).
  assert (Hnone' : None ∉ truncate_ids (max_position_embeddings d) ids)
    by (intros H; by apply elem_of_truncate_ids in H).
  destruct (int_ids_Some _ Hnone') as (zs & Hzs & Hlz).
  rewrite length_truncate_ids, Hlen in Hlz.
  destruct (Hround (length zs)) as [n Hn]; [lia|].
  destruct (get_masked_sample_run d zs st n Hn (vocab_size_pos _ _ Hunk))
    as (shuffled & corrupted & st' & _ & _ & Hrun & Hlc & _).
  exists (corrupted, make_labels d zs (take (Z.to_nat (Z.max 1 n)) shuffled)), st'.
  split.
  - unfold process_paragraph. unfold_monad. rewrite Htok. cbv zeta. by rewrite Hzs.
  - unfold sample_of. simpl. rewrite length_make_labels. lia.
Qed.

Lemma process_paragraphs_Ok (paragraphs : list string) : ∀ data max_len st,
  ∃ data' st',
    process_paragraphs d paragraphs data max_len st
      = Ok (AllData (data ++ data')
              (Nat.max max_len (max_list ((fun s => length s.1) <$> data'))), st') ∧
    Forall2 (sample_of d) paragraphs data'.
Proof.
  induction paragraphs as [|p ps IH]; intros data max_len st.
  - exists [], st. split; [|constructor]. simpl. unfold_monad.
    by rewrite app_nil_r, Nat.max_0_r.
  - destruct (process_paragraph_Ok p st) as (sample & st1 & Hrun & Hs).
    destruct (IH (data ++ [sample]) (Nat.max max_len (length sample.1)) st1)
      as (data' & st' & Hrest & Hall).
    exists (sample :: data'), st'. split; [|by constructor].
    cbn [process_paragraphs]. unfold_monad. rewrite Hrun.
    unfold_monad_in Hrest. rewrite Hrest. rewrite <- app_assoc. simpl.
    by rewrite Nat.max_assoc.
Qed.

End Total.



End DataFacts.

(** The method [data_process] is the wrapper of [@cache] around its body:
    [cache_call (data_process d df filepath) files filepath postfix]. *)
Section DataInversion.
Context (d : LoadDNADataset).









End DataInversion.







(** * LoadDNADataset: construction and loading *)

Section InitFacts.

Lemma Vocab_getitem_resolves (v : Vocab) (symbol : string) (i : nat) :
  stoi_last v → Vocab_getitem v symbol = Ok (Some i) → resolves v symbol (Z.of_nat i).
Proof.
  intros Hlast H. exists i. split; [done|].
  rewrite Vocab_getitem_eq in H. injection H as H. unfold dict_get in H.
  destruct (stoi v !! symbol) as [k|] eqn:E.
  - injection H as ->. left. by apply Hlast in E as [E _].
  - right. split; [by apply (stoi_last_None v)|].
    destruct (stoi v !! UNK) as [k|] eqn:E'; [|done]. injection H as ->.
    by apply Hlast in E' as [E' _].
Qed.

Lemma Vocab_getitem_Some_size (v : Vocab) (symbol : string) (i : nat) :
  Vocab_getitem v symbol = Ok (Some i) → (0 < size (stoi v))%nat.
Proof.
  rewrite Vocab_getitem_eq. intros [= H].
  destruct (decide (size (stoi v) = 0%nat)) as [E|E]; [|lia].
  apply map_size_empty_inv in E. rewrite E in H. unfold dict_get in H.
  by rewrite !lookup_empty in H.
Qed.

End InitFacts.

(** X21.  An instance constructed over a vocabulary file has a vocabulary
    of at least one and at most as many symbols as the file has lines, and
    each of [SEP_IDX], [CLS_IDX] and [MASK_IDS] is an index of the symbol
    list that holds the reserved symbol, or ['[UNK]'] when the file does not
    have the reserved symbol. *)
Theorem LoadDNADataset_init_ids (lines : list string) (pad_index : Z)
    (d : LoadDNADataset) :
  LoadDNADataset_init lines pad_index = Some d →
  PAD_IDX d = pad_index ∧
  0 < vocab_size d ≤ Z.of_nat (length lines) ∧
  resolves (vocab d) "[SEP]" (SEP_IDX d) ∧
  resolves (vocab d) "[CLS]" (CLS_IDX d) ∧
  resolves (vocab d) "[MASK]" (MASK_IDS d).
Proof.
  unfold LoadDNADataset_init, build_vocab.
  pose proof (Vocab_init_last lines) as Hlast.
  assert (Hsize : stoi_size (Vocab_init lines)).
  { apply (Vocab_load_size lines {| stoi := ∅; itos := [] |}).
    - intros s k. simpl. rewrite lookup_empty. unfold last_index. simpl.
      split; [done|]. by intros [? _].
    - split; simpl; [by rewrite map_size_empty|].
      split; [constructor|by rewrite map_size_empty]. }
  destruct Hsize as [Hle _]. rewrite Vocab_init_itos, length_fmap in Hle.
  set (v := Vocab_init lines) in *.
  destruct (Vocab_getitem v "[SEP]") as [[sep|]|] eqn:Hsep; try done.
  destruct (Vocab_getitem v "[CLS]") as [[cls|]|] eqn:Hcls; try done.
  destruct (Vocab_getitem v "[MASK]") as [[mask|]|] eqn:Hmask; try done.
  intros [= <-]. unfold vocab_size. simpl.
  split; [done|]. split.
  - pose proof (Vocab_getitem_Some_size _ _ _ Hsep). lia.
  - split; [|split]; by apply Vocab_getitem_resolves.
Qed.

(** The file without ['[UNK]']: three reserved symbols and one base. *)
Lemma LoadDNADataset_init_ids_witness :
  0 < vocab_size bare_dataset ≤ 4 ∧ resolves (vocab bare_dataset) "[MASK]" 2.
Proof.
  pose proof (LoadDNADataset_init_ids bare_lines 0 bare_dataset eq_refl)
    as (_ & H1 & _ & _ & H2).
  split; [exact H1|exact H2].
Defined.

Section LoadFacts.
Context (str_float : spec_float → string).
Context (d : LoadDNADataset) (u : nat).
Context (Hunk : stoi (vocab d) !! UNK = Some u).
Context (Hround : ∀ len, (len ≤ max_position_embeddings d)%nat →
                         ∃ n, round_len_rate d len = Ok n).

(** [data_process] does not read [max_sen_len]. *)
Lemma data_process_run (m : max_len_arg) (df : list (list Z)) (filepath : string)
    (st : RandomState) :
  contains_char "." filepath = true →
  ∃ all st',
    data_process (with_max_sen_len d m) df filepath st = Ok (all, st') ∧
    max_len all = max_list (sample_lengths (data all)).
Proof.
  intros Hdot. unfold data_process, read_dnaseq. simpl.
  destruct (random_shuffle_perm
    (read_windows df (number_of_group d) (inital_site d) (max_position_embeddings d)) st)
    as (paragraphs & st1 & Hsh & Hperm).
  destruct (after_first_dot_Some _ Hdot) as [rest Hrest].
  destruct (process_paragraphs_Ok (with_max_sen_len d m) u Hunk Hround paragraphs
              [] 0%nat st1) as (data' & st' & Hrun & Hall).
  exists (AllData data' (max_list (sample_lengths data'))), st'. split; [|done].
  unfold_monad. rewrite Hsh. unfold second_dot_field. rewrite Hrest.
  unfold_monad_in Hrun. by rewrite Hrun.
Qed.

Lemma with_max_sen_len_id : with_max_sen_len d (max_sen_len d) = d.
Proof. by destruct d. Qed.

Lemma data_process_run_self (df : list (list Z)) (filepath : string) (st : RandomState) :
  contains_char "." filepath = true →
  ∃ all st',
    data_process d df filepath st = Ok (all, st') ∧
    max_len all = max_list (sample_lengths (data all)).
Proof.
  intros Hdot. pose proof (data_process_run (max_sen_len d) df filepath st Hdot) as H.
  by rewrite with_max_sen_len_id in H.
Qed.

Lemma M_bind_Ok {A B} (m : M A) (k : A → M B) (st st1 : RandomState) (a : A) :
  m st = Ok (a, st1) → (x ← m; k x) st = k a st1.
Proof. intros H. unfold_monad. by rewrite H. Qed.

Lemma split_keys_ne (filepath1 filepath2 name1 name2 : string) :
  name1 ≠ EmptyString → name2 ≠ EmptyString → last_char name1 ≠ last_char name2 →
  cache_data_path filepath1 (name1 +:+ postfix_of str_float d)
  ≠ cache_data_path filepath2 (name2 +:+ postfix_of str_float d).
Proof. intros H1 H2 Hne H. by apply cache_data_path_names in H. Qed.

(** The three calls of [data_process] by [load_train_val_test_data], from
    the first to the last. *)
Lemma load_calls (train_df val_df test_df : list (list Z))
    (train_file_path val_file_path test_file_path : string)
    (files : gmap string all_data) (st : RandomState) :
  contains_char "." train_file_path = true →
  contains_char "." val_file_path = true →
  contains_char "." test_file_path = true →
  let postfix := postfix_of str_float d in
  let test_key := cache_data_path test_file_path ("test" +:+ postfix) in
  let train_key := cache_data_path train_file_path ("train" +:+ postfix) in
  let val_key := cache_data_path val_file_path ("val" +:+ postfix) in
  ∃ test train val files1 files2 files3 st1 st2 st3,
    let d' := match max_sen_len d with
              | MaxSame => with_max_sen_len d (MaxInt (max_len train))
              | _ => d
              end in
    cache_call (data_process d test_df test_file_path) files test_file_path
      ("test" +:+ postfix) st = Ok ((test, files1), st1) ∧
    cache_call (data_process d train_df train_file_path) files1 train_file_path
      ("train" +:+ postfix) st1 = Ok ((train, files2), st2) ∧
    cache_call (data_process d' val_df val_file_path) files2 val_file_path
      ("val" +:+ postfix) st2 = Ok ((val, files3), st3) ∧
    files3 !! test_key = Some test ∧
    files3 !! train_key = Some train ∧
    files3 !! val_key = Some val ∧
    (files !! train_key = None → max_len train = max_list (sample_lengths (data train))).
Proof.
  intros Htrain Hval Htest postfix test_key train_key val_key.
  assert (Hne1 : train_key ≠ test_key) by (by apply split_keys_ne).
  assert (Hne2 : val_key ≠ test_key) by (by apply split_keys_ne).
  assert (Hne3 : val_key ≠ train_key) by (by apply split_keys_ne).
  destruct (cache_call_run (fun _ => True) (data_process d test_df test_file_path)
              files test_file_path ("test" +:+ postfix) st)
    as (test & files1 & st1 & Hrun1 & Hin1 & Hout1 & _).
  { destruct (data_process_run_self test_df test_file_path st Htest) as (a & s & H & _).
    by exists a, s. }
  destruct (cache_call_run (fun a => max_len a = max_list (sample_lengths (data a)))
              (data_process d train_df train_file_path)
              files1 train_file_path ("train" +:+ postfix) st1)
    as (train & files2 & st2 & Hrun2 & Hin2 & Hout2 & Hmax).
  { apply (data_process_run_self train_df train_file_path st1 Htrain). }
  set (d' := match max_sen_len d with
             | MaxSame => with_max_sen_len d (MaxInt (max_len train))
             | _ => d
             end).
  destruct (cache_call_run (fun _ => True) (data_process d' val_df val_file_path)
              files2 val_file_path ("val" +:+ postfix) st2)
    as (val & files3 & st3 & Hrun3 & Hin3 & Hout3 & _).
  { assert (H : ∃ a s, data_process d' val_df val_file_path st2 = Ok (a, s)).
    { subst d'. destruct (max_sen_len d).
      - destruct (data_process_run_self val_df val_file_path st2 Hval) as (a & s & H & _).
        by exists a, s.
      - destruct (data_process_run_self val_df val_file_path st2 Hval) as (a & s & H & _).
        by exists a, s.
      - destruct (data_process_run (MaxInt (max_len train)) val_df val_file_path st2 Hval)
          as (a & s & H & _).
        by exists a, s. }
    destruct H as (a & s & H). by exists a, s. }
  exists test, train, val, files1, files2, files3, st1, st2, st3.
  fold test_key in Hin1, Hout1. fold train_key in Hin2, Hout2, Hmax.
  fold val_key in Hin3, Hout3.
  split; [done|]. split; [done|]. split; [done|].
  split; [by rewrite (Hout3 test_key), (Hout2 test_key)|].
  split; [by rewrite (Hout3 train_key)|].
  split; [done|].
  intros Hmiss. apply Hmax. by rewrite (Hout1 train_key).
Qed.

End LoadFacts.



(** X23.  A second [load_train_val_test_data] of an equal instance over the
    cache files that the first one left, on the same three paths, returns
    the data of the first whatever the three tables hold now, and draws no
    random number. *)
Theorem load_train_val_test_data_cached (str_float : spec_float → string)
    (d : LoadDNADataset) (u : nat) (train_df val_df test_df : list (list Z))
    (train_file_path val_file_path test_file_path : string)
    (files : gmap string all_data) (st : RandomState) :
  stoi (vocab d) !! UNK = Some u →
  (∀ len, (len ≤ max_position_embeddings d)%nat → ∃ n, round_len_rate d len = Ok n) →
  contains_char "." train_file_path = true →
  contains_char "." val_file_path = true →
  contains_char "." test_file_path = true →
  ∃ r d' files' st',
    load_train_val_test_data str_float d train_df val_df test_df
      train_file_path val_file_path test_file_path false files st
    = Ok ((r, d', files'), st') ∧
    ∀ (train_df' val_df' test_df' : list (list Z)) (st2 : RandomState),
      load_train_val_test_data str_float d train_df' val_df' test_df'
        train_file_path val_file_path test_file_path false files' st2
      = Ok ((r, d', files'), st2).
Proof.
  intros Hunk Hround Htrain Hval Htest.
  destruct (load_calls str_float d u Hunk Hround train_df val_df test_df _ _ _ files st
              Htrain Hval Htest)
    as (test & train & val & files1 & files2 & files3 & st1 & st2 & st3
        & Hrun1 & Hrun2 & Hrun3 & Hin1 & Hin2 & Hin3 & _).
  eexists _, _, files3, st3. split.
  - unfold load_train_val_test_data.
    rewrite (M_bind_Ok _ _ _ _ _ Hrun1). cbn [fst snd].
    rewrite (M_bind_Ok _ _ _ _ _ Hrun2). cbn [fst snd].
    rewrite (M_bind_Ok _ _ _ _ _ Hrun3). reflexivity.
  - intros train_df' val_df' test_df' st4. unfold load_train_val_test_data.
    rewrite (M_bind_Ok _ _ _ _ _ (cache_call_hit _ _ _ _ _ st4 Hin1)). cbn [fst snd].
    rewrite (M_bind_Ok _ _ _ _ _ (cache_call_hit _ _ _ _ _ st4 Hin2)). cbn [fst snd].
    rewrite (M_bind_Ok _ _ _ _ _ (cache_call_hit _ _ _ _ _ st4 Hin3)). reflexivity.
Qed.

Lemma load_train_val_test_data_cached_witness :
  ∃ r d' files' st',
    load_train_val_test_data (fun _ => "0.5") dna_dataset
      [[1; 2; 3]; [4; 5; 6]] [[7; 8]] [[9]] "./train.csv" "./val.csv" "./test.csv"
      false ∅ (tape_of [])
    = Ok ((r, d', files'), st') ∧
    load_train_val_test_data (fun _ => "0.5") dna_dataset
      [] [] [] "./train.csv" "./val.csv" "./test.csv" false files' st'
    = Ok ((r, d', files'), st').
Proof.
  destruct (load_train_val_test_data_cached (fun _ => "0.5") dna_dataset 1
              [[1; 2; 3]; [4; 5; 6]] [[7; 8]] [[9]] "./train.csv" "./val.csv" "./test.csv"
              ∅ (tape_of []) eq_refl dna_round_len_rate_total eq_refl eq_refl eq_refl)
    as (r & d' & files' & st' & Hrun & Hagain).
  exists r, d', files', st'. split; [exact Hrun|]. exact (Hagain [] [] [] st').
Defined.

(** * Which positions the shuffle can commit *)

Section ShuffleFacts.

Lemma swap_same {A} (x : list A) (i : nat) : swap x i i = x.
Proof.
  unfold swap. destruct (x !! i) as [xi|] eqn:E; [|done].
  rewrite list_insert_insert_eq. by apply list_insert_id.
Qed.

Lemma swap_head {A} (x : list A) (q : nat) (p : A) :
  x !! q = Some p → swap x q 0 !! 0%nat = Some p.
Proof.
  intros Hq. unfold swap. rewrite Hq.
  destruct (x !! 0%nat) as [x0|] eqn:E.
  - apply list_lookup_insert_eq. rewrite length_insert.
    apply lookup_lt_Some in E. done.
  - apply lookup_ge_None in E. apply lookup_lt_Some in Hq. lia.
Qed.

(** A shuffle whose draws are [0] at step [q] and [i] at every other step
    [i]. *)
Lemma shuffle_from_front {A} (tp : nat → N) (q : nat) : ∀ i (x : list A) c,
  (∀ k, (1 ≤ k ≤ i)%nat →
        tp (c + (i - k))%nat = if decide (k = q) then 0%N else N.of_nat k) →
  shuffle_from i x {| tape := tp; cursor := c |}
  = Ok (if decide (1 ≤ q ≤ i)%nat then swap x q 0 else x,
        {| tape := tp; cursor := (c + i)%nat |}).
Proof.
  induction i as [|i IH]; intros x c Htp.
  - cbn [shuffle_from]. unfold_monad. rewrite decide_False by lia.
    by rewrite Nat.add_0_r.
  - cbn [shuffle_from]. unfold randbelow, next_raw. unfold_monad. cbn [tape cursor].
    pose proof (Htp (S i) ltac:(lia)) as Hc.
    rewrite Nat.sub_diag, Nat.add_0_r in Hc. rewrite Hc.
    assert (Hrest : ∀ k, (1 ≤ k ≤ i)%nat →
              tp (S c + (i - k))%nat = if decide (k = q) then 0%N else N.of_nat k).
    { intros k Hk. rewrite <- (Htp k) by lia. f_equal. lia. }
    destruct (decide (S i = q)) as [Hq|Hq].
    + change (Z.to_nat (Z.of_N 0 mod (Z.of_nat (S i) + 1)))
        with (Z.to_nat (0 mod (Z.of_nat (S i) + 1))).
      rewrite Z.mod_0_l by lia. change (Z.to_nat 0) with 0%nat.
      rewrite (IH _ (S c) Hrest).
      rewrite decide_False by lia. rewrite decide_True by lia.
      rewrite Hq. do 3 f_equal. lia.
    + rewrite nat_N_Z, Z.mod_small by lia. rewrite Nat2Z.id, swap_same.
      rewrite (IH _ (S c) Hrest).
      destruct (decide (1 ≤ q ≤ i)%nat), (decide (1 ≤ q ≤ S i)%nat); try lia;
        do 3 f_equal; lia.
Qed.

Lemma random_shuffle_front {A} (x : list A) (q : nat) (p : A) :
  x !! q = Some p →
  ∃ y st', random_shuffle x (front_tape (length x) q) = Ok (y, st') ∧
           y !! 0%nat = Some p.
Proof.
  intros Hq. unfold random_shuffle, front_tape.
  rewrite (shuffle_from_front _ q).
  - eexists _, _. split; [reflexivity|].
    case_decide; [by apply swap_head|].
    apply lookup_lt_Some in Hq as Hlt.
    assert (q = 0%nat) as -> by lia. done.
  - intros k Hk. cbv zeta. rewrite Nat.add_0_l.
    replace (length x - 1 - (length x - 1 - k))%nat with k by lia.
    done.
Qed.

End ShuffleFacts.

(** X24.  Every candidate position can be committed: for each one there is
    a sequence of draws on which [get_masked_sample] selects it, so that
    its label is its original token. *)
Theorem get_masked_sample_any_candidate (d : LoadDNADataset) (token_ids : list Z)
    (n : Z) (p : nat) (t : Z) :
  round_len_rate d (length token_ids) = Ok n →
  0 < vocab_size d →
  token_ids !! p = Some t → t ≠ CLS_IDX d → t ≠ SEP_IDX d →
  ∃ st committed corrupted labels st',
    get_masked_sample_trace d token_ids st = Ok ((committed, (corrupted, labels)), st') ∧
    get_masked_sample d token_ids st = Ok ((corrupted, labels), st') ∧
    p ∈ committed ∧ labels !! p = Some t.
Proof.
  intros Hn Hv Hp Hcls Hsep.
  assert (Hin : p ∈ candidates_from d 0 token_ids).
  { apply candidates_are_candidates. by exists t. }
  apply list_elem_of_lookup in Hin as [q Hq].
  destruct (random_shuffle_front _ q p Hq) as (shuffled & st1 & Hsh & Hhead).
  set (st := front_tape (length (candidates_from d 0 token_ids)) q) in *.
  destruct (random_shuffle_perm (candidates_from d 0 token_ids) st)
    as (y & st1' & Hsh' & Hperm).
  rewrite Hsh in Hsh'. injection Hsh' as <- <-.
  destruct (replace_loop_spec d token_ids (Z.max 1 n) Hv shuffled [] token_ids st1)
    as (inp' & st' & Hrun & _); [done| |].
  { intros i Hi. rewrite Hperm in Hi.
    apply candidates_are_candidates in Hi as (x & Hx & _).
    by eapply lookup_lt_Some. }
  simpl in Hrun. rewrite Z.sub_0_r in Hrun.
  apply num_mlm_preds_of_round in Hn.
  set (committed := take (Z.to_nat (Z.max 1 n)) shuffled) in *.
  assert (Hc : p ∈ committed).
  { apply list_elem_of_lookup. exists 0%nat. subst committed.
    rewrite lookup_take_lt by lia. done. }
  exists st, committed, inp', (make_labels d token_ids committed), st'.
  split; [|split; [|split; [done|]]].
  - unfold get_masked_sample_trace, replace_masked_tokens_trace.
    unfold_monad. by rewrite Hsh, Hn, Hrun.
  - unfold get_masked_sample, replace_masked_tokens, replace_masked_tokens_trace.
    unfold_monad. by rewrite Hsh, Hn, Hrun.
  - rewrite make_labels_lookup, Hp. simpl. by rewrite decide_True.
Qed.

(** Position 4 of [[CLS] A C G T [SEP]]. *)
Lemma get_masked_sample_any_candidate_witness :
  ∃ st committed corrupted labels st',
    get_masked_sample_trace dna_dataset dna_sample st
      = Ok ((committed, (corrupted, labels)), st') ∧
    get_masked_sample dna_dataset dna_sample st = Ok ((corrupted, labels), st') ∧
    4%nat ∈ committed ∧ labels !! 4%nat = Some 8.
Proof.
  apply (get_masked_sample_any_candidate dna_dataset dna_sample 1 4 8);
    [reflexivity|reflexivity|reflexivity|discriminate|discriminate].
Defined.

